(** * The inventory manager: storage layer and command shell

    A shallow embedding of [inventory-manager.py]: the class
    [InventoryDatabase] (one SQLite table of items behind six methods) and the
    commands of [InventoryShell].

    Conventions of the model.
    - A Python [str] is a Rocq [string]; each [ascii] is one code point below
      256.  Whitespace, digits and letter case are those Python and SQLite
      give these code points.
    - A Python [int] is a [Z].  SQLite stores 64-bit signed integers: the
      [sqlite3] module raises [OverflowError] when it binds any other [int].
    - [datetime.now().isoformat()] is an input of the calls that read the
      clock: a [Z], the instant read, counted in microseconds on the naive
      local time line.  The ISO text the program stores orders as the
      instants do and is equal exactly when they are.
    - The table is the list of its rows in rowid order, together with the
      counter SQLite keeps in [sqlite_sequence] for an AUTOINCREMENT key.
      A statement acts on the rows its WHERE clause selects.
    - A call returns a value and the store it leaves, or raises.  A statement
      that raises has written nothing.
    - A row holds values of the types the schema gives its columns: [name]
      is text, [description] and [location] are text or NULL, [quantity]
      is an integer.  A keyword value is [None], an [int] or a [str].
      What SQLite makes of a value of another type than its column's is
      not modelled: a call that writes one into a row has the outcome
      [Untyped].
    - SQLite refuses a LIKE pattern of more than 50000 bytes; its other
      resource limits (the longest text, disk space) are not modelled. *)

From Stdlib Require Import ZArith String Ascii List Lia.
From stdpp Require Import base option list gmap strings pretty sorting.

Open Scope Z_scope.

(** ** Outcomes of a call *)

Inductive exn : Type :=
| TypeError          (* Python: got multiple values for argument *)
| OverflowError      (* sqlite3: Python int too large to convert to SQLite INTEGER *)
| IntegrityError     (* sqlite3: NOT NULL constraint failed: items.name *)
| OperationalError.  (* sqlite3: database or disk is full (SQLITE_FULL);
                        LIKE or GLOB pattern too complex *)

Inductive outcome (A : Type) : Type :=
| Returns (a : A)
| Raises (e : exn)
| Untyped.
Arguments Returns {A} a.
Arguments Raises {A} e.
Arguments Untyped {A}.

#[global] Instance outcome_ret : MRet outcome := λ A a, Returns a.
#[global] Instance outcome_bind : MBind outcome := λ A B f m,
  match m with
  | Returns a => f a
  | Raises e => Raises e
  | Untyped => Untyped
  end.

(** ** Python text: [str.split] and [int] *)

Module Py.

Definition code (c : ascii) : N := N_of_ascii c.

(** [str.isspace] on one code point, the white space [str.split] cuts at:
    TAB to CR, FS to US, SPACE, NEL and NBSP. *)
Definition isspace (c : ascii) : bool :=
  let n := code c in
  ((9 <=? n) && (n <=? 13) || (28 <=? n) && (n <=? 32) || (n =? 133) || (n =? 160))%N.

(** The white space [int] skips around a number: FS to US are not in it. *)
Definition int_space (c : ascii) : bool :=
  let n := code c in
  ((9 <=? n) && (n <=? 13) || (n =? 32) || (n =? 133) || (n =? 160))%N.

Definition digit (c : ascii) : option Z :=
  let n := code c in
  if ((48 <=? n) && (n <=? 57))%N then Some (Z.of_N n - 48) else None.

(** Drop leading characters while [p] holds. *)
Fixpoint skip (p : ascii → bool) (s : string) : string :=
  match s with
  | String c s' => if p c then skip p s' else s
  | EmptyString => EmptyString
  end.

Definition lstrip : string → string := skip isspace.

(** The run of characters up to the next white space, and what follows it. *)
Fixpoint token (s : string) : string * string :=
  match s with
  | String c s' =>
      if isspace c then (EmptyString, s)
      else let (t, r) := token s' in (String c t, r)
  | EmptyString => (EmptyString, EmptyString)
  end.

(** [s.split(maxsplit=n)]: at most [n] cuts at runs of white space; then
    what is left of the line, its leading white space dropped and its
    trailing white space kept, is the last element. *)
Fixpoint split (maxsplit : nat) (s : string) {struct maxsplit} : list string :=
  match lstrip s with
  | EmptyString => []
  | String _ _ as s1 =>
      match maxsplit with
      | O => [s1]
      | S n => let (t, r) := token s1 in t :: split n r
      end
  end.

(** [s.split()]: no bound on the cuts.  A line has at most as many words
    as characters. *)
Definition split_all (s : string) : list string := split (String.length s) s.

(** The digits of a number: single underscores may separate digits.
    Returns the value, the count of digits and the text left. *)
Fixpoint scan (prev_underscore : bool) (ndigits : nat) (acc : Z) (s : string)
  : option (Z * nat * string) :=
  match s with
  | String c s' =>
      match digit c with
      | Some d => scan false (S ndigits) (10 * acc + d) s'
      | None =>
          if Ascii.eqb c "_" then
            if prev_underscore then None else scan true ndigits acc s'
          else if prev_underscore then None else Some (acc, ndigits, s)
      end
  | EmptyString => if prev_underscore then None else Some (acc, ndigits, s)
  end.

(** [sys.int_info.default_max_str_digits] *)
Definition max_str_digits : nat := 4300.

(** The digits of [int(s)] and the white space allowed after them;
    [None] stands for [ValueError]. *)
Definition digits (negative : bool) (s : string) : option Z :=
  match s with
  | String c _ =>
      if Ascii.eqb c "_" then None
      else
        match scan false 0 0 s with
        | Some (n, ndigits, rest) =>
            if (ndigits =? 0)%nat then None
            else if (max_str_digits <? ndigits)%nat then None
            else match skip int_space rest with
                 | EmptyString => Some (if negative then - n else n)
                 | String _ _ => None
                 end
        | None => None
        end
  | EmptyString => None
  end.

(** [int(s)] in base 10: white space, a sign, digits, white space. *)
Definition int (s : string) : option Z :=
  match skip int_space s with
  | String c r =>
      if Ascii.eqb c "+" then digits false r
      else if Ascii.eqb c "-" then digits true r
      else digits false (String c r)
  | EmptyString => None
  end.

Fixpoint startswith (prefix s : string) : bool :=
  match prefix, s with
  | EmptyString, _ => true
  | String a p', String b s' => Ascii.eqb a b && startswith p' s'
  | String _ _, EmptyString => false
  end.

(** [sub in s] *)
Fixpoint contains (sub s : string) : bool :=
  startswith sub s ||
  match s with
  | String _ s' => contains sub s'
  | EmptyString => false
  end.

(** [s[:n]] *)
Fixpoint slice (n : nat) (s : string) : string :=
  match n, s with
  | S n', String c s' => String c (slice n' s')
  | _, _ => EmptyString
  end.

(** [c * n] *)
Fixpoint times (n : nat) (c : ascii) : string :=
  match n with
  | S n' => String c (times n' c)
  | O => EmptyString
  end.

(** [format(s, '<width')]: spaces after [s] up to [width], nothing cut. *)
Definition ljust (width : nat) (s : string) : string :=
  s +:+ times (width - String.length s) " ".

End Py.

(** ** The engine: 64-bit integers and LIKE *)

Module SQL.

Definition INT64_MAX : Z := 9223372036854775807.
Definition INT64_MIN : Z := -9223372036854775808.

Definition fits (n : Z) : bool := (INT64_MIN <=? n) && (n <=? INT64_MAX).

(** Binding a Python int to a statement parameter. *)
Definition bind_int (n : Z) : outcome Z :=
  if fits n then Returns n else Raises OverflowError.

(** LIKE folds the case of the 26 ASCII letters only. *)
Definition lower (c : ascii) : ascii :=
  let n := Py.code c in
  if ((65 <=? n) && (n <=? 90))%N then ascii_of_N (n + 32) else c.

Fixpoint lower_all (s : string) : string :=
  match s with
  | String c s' => String (lower c) (lower_all s')
  | EmptyString => EmptyString
  end.

(** LIKE reads its operands as C strings: up to the first NUL. *)
Fixpoint c_str (s : string) : string :=
  match s with
  | String c s' => if Ascii.eqb c "000" then EmptyString else String c (c_str s')
  | EmptyString => EmptyString
  end.

(** [%] matches any run of characters, [_] any one character, any other
    character itself up to ASCII case. *)
Fixpoint like_from (pattern : string) : string → bool :=
  match pattern with
  | EmptyString =>
      λ s, match s with EmptyString => true | String _ _ => false end
  | String c p' =>
      if Ascii.eqb c "%" then
        fix any (s : string) : bool :=
          like_from p' s ||
          match s with String _ s' => any s' | EmptyString => false end
      else if Ascii.eqb c "_" then
        λ s, match s with String _ s' => like_from p' s' | EmptyString => false end
      else
        λ s, match s with
             | String d s' => Ascii.eqb (lower c) (lower d) && like_from p' s'
             | EmptyString => false
             end
  end.

(** [text LIKE pattern] on two text values. *)
Definition like (pattern text : string) : bool :=
  like_from (c_str pattern) (c_str text).

(** SQLITE_MAX_LIKE_PATTERN_LENGTH *)
Definition LIKE_PATTERN_LENGTH : Z := 50000.

(** The length of a text in bytes (UTF-8): one byte for a code point below
    128, two for the others below 256. *)
Fixpoint bytes (s : string) : Z :=
  match s with
  | String c s' => (if (Py.code c <? 128)%N then 1 else 2) + bytes s'
  | EmptyString => 0
  end.

(** [column LIKE pattern]: NULL matches nothing. *)
Definition like_column (pattern : string) (column : option string) : bool :=
  match column with
  | Some text => like pattern text
  | None => false
  end.

End SQL.

(** ** class InventoryDatabase *)

(** One row of [items], as [SELECT *] returns it. *)
Record Item : Type := {
  item_id : Z;
  name : string;
  description : option string;
  location : option string;
  quantity : Z;
  date_added : Z;
  last_modified : Z
}.

#[global] Instance Item_eq_dec : EqDecision Item.
Proof. solve_decision. Defined.

(** The database file: the rows of [items] in rowid order, and the largest
    rowid the table has ever held ([sqlite_sequence]).  The table
    [categories] is created and never read or written. *)
Record Store : Type := {
  items : list Item;
  seq : Z
}.

(** A value passed by keyword: [None], an [int] or a [str]. *)
Inductive pyval : Type :=
| PNone
| PInt (n : Z)
| PStr (s : string).

#[global] Instance pyval_eq_dec : EqDecision pyval.
Proof. solve_decision. Defined.

Definition empty_store : Store := {| items := []; seq := 0 |}.

(** [CREATE TABLE IF NOT EXISTS]: a file that has the table keeps it. *)
Definition create_tables (file : option Store) : Store :=
  match file with
  | Some st => st
  | None => empty_store
  end.

Definition max_rowid (rows : list Item) : Z := foldr Z.max 0 (item_id <$> rows).

(** AUTOINCREMENT: one more than the largest rowid that ever was in the
    table; SQLITE_FULL once the largest 64-bit integer was used. *)
Definition high_water (st : Store) : Z := Z.max (seq st) (max_rowid (items st)).

Definition next_rowid (st : Store) : outcome Z :=
  if high_water st <? SQL.INT64_MAX then Returns (high_water st + 1)
  else Raises OperationalError.

(** The row [INSERT INTO items (...) VALUES (?, ?, ?, ?, ?, ?)] writes. *)
Definition new_row (rowid current_time : Z)
    (name : string) (description location : option string) (quantity : Z) : Item :=
  {| item_id := rowid; name := name; description := description;
     location := location; quantity := quantity;
     date_added := current_time; last_modified := current_time |}.

Definition add_item (st : Store) (current_time : Z)
    (name : string) (description location : option string) (quantity : Z)
  : outcome (Z * Store) :=
  quantity ← SQL.bind_int quantity;
  lastrowid ← next_rowid st;
  let row := new_row lastrowid current_time name description location quantity in
  Returns (lastrowid, {| items := items st ++ [row]; seq := lastrowid |}).

(** [fetchone]: the first selected row, or [None]. *)
Definition get_item (st : Store) (id : Z) : outcome (option Item) :=
  id ← SQL.bind_int id;
  Returns (head (filter (λ r, item_id r = id) (items st))).

Definition allowed_fields : gset string :=
  {[ "name"; "description"; "location"; "quantity" ]}.

(** The typed reading of the values to bind: what each column named in
    [updates] is set to.  [None] when a value has not its column's type. *)
Record assignment : Type := {
  set_name : option string;
  set_description : option (option string);
  set_location : option (option string);
  set_quantity : option Z
}.

Definition as_text (v : pyval) : option string :=
  match v with PStr s => Some s | _ => None end.

Definition as_nullable_text (v : pyval) : option (option string) :=
  match v with PStr s => Some (Some s) | PNone => Some None | PInt _ => None end.

Definition as_integer (v : pyval) : option Z :=
  match v with PInt n => Some n | _ => None end.

Definition column {A} (updates : gmap string pyval) (k : string)
    (read : pyval → option A) : option (option A) :=
  match updates !! k with
  | Some v => a ← read v; Some (Some a)
  | None => Some None
  end.

Definition typed (updates : gmap string pyval) : option assignment :=
  n ← column updates "name" as_text;
  d ← column updates "description" as_nullable_text;
  l ← column updates "location" as_nullable_text;
  q ← column updates "quantity" as_integer;
  Some {| set_name := n; set_description := d; set_location := l; set_quantity := q |}.

(** Every int among the values must fit a SQLite INTEGER. *)
Definition bindable (v : pyval) : bool :=
  match v with PInt n => SQL.fits n | _ => true end.

Definition bind_values (updates : gmap string pyval) : outcome () :=
  if bool_decide (map_Forall (λ _ v, bindable v = true) updates) then Returns ()
  else Raises OverflowError.

(** The parameters of the method itself: a keyword of that name is a
    second value for the parameter. *)
Definition parameters : gset string := {[ "self"; "item_id" ]}.

(** [SET k = ?, ..., last_modified = ?] on one row. *)
Definition set_columns (a : assignment) (now : Z) (r : Item) : Item :=
  {| item_id := item_id r;
     name := default (name r) (set_name a);
     description := default (description r) (set_description a);
     location := default (location r) (set_location a);
     quantity := default (quantity r) (set_quantity a);
     date_added := date_added r;
     last_modified := now |}.

(** [{k: v for k, v in kwargs.items() if k in allowed_fields}] *)
Definition allowed (kwargs : gmap string pyval) : gmap string pyval :=
  filter (λ kv, kv.1 ∈ allowed_fields) kwargs.

(** [UPDATE items SET ... WHERE id = ?] *)
Definition update_rows (a : assignment) (now id : Z) (rows : list Item) : list Item :=
  (λ r, if decide (item_id r = id) then set_columns a now r else r) <$> rows.

(** The statement on the rows it selects: with none selected nothing is
    written; NULL in [name] breaks NOT NULL; a value of its column's type
    is stored as it is. *)
Definition execute_update (st : Store) (now id : Z) (updates : gmap string pyval)
  : outcome Store :=
  if decide (Forall (λ r, item_id r ≠ id) (items st)) then Returns st
  else if decide (updates !! "name" = Some PNone) then Raises IntegrityError
  else
    match typed updates with
    | Some a => Returns {| items := update_rows a now id (items st); seq := seq st |}
    | None => Untyped
    end.

Definition update_item (st : Store) (now : Z) (id : Z) (kwargs : gmap string pyval)
  : outcome (bool * Store) :=
  if decide (dom kwargs ## parameters) then
    let updates := allowed kwargs in
    if decide (updates = ∅) then Returns (false, st)
    else
      _ ← bind_values updates;
      id ← SQL.bind_int id;
      st' ← execute_update st now id updates;
      Returns (true, st')
  else Raises TypeError.

Definition delete_item (st : Store) (id : Z) : outcome (bool * Store) :=
  id ← SQL.bind_int id;
  let kept := filter (λ r, item_id r ≠ id) (items st) in
  let rowcount := (length (items st) - length kept)%nat in
  Returns (bool_decide (0 < rowcount)%nat, {| items := kept; seq := seq st |}).

(** The rows [WHERE name LIKE ? OR description LIKE ?] selects. *)
Definition matching (st : Store) (search_term : string) : list Item :=
  let pattern := "%" +:+ search_term +:+ "%" in
  filter (λ r, SQL.like pattern (name r) || SQL.like_column pattern (description r) = true)
         (items st).

(** LIKE checks the length of its pattern when it is evaluated: on the
    first row, if there is one. *)
Definition search_items (st : Store) (search_term : string) : outcome (list Item) :=
  let pattern := "%" +:+ search_term +:+ "%" in
  match items st with
  | [] => Returns []
  | _ :: _ =>
      if SQL.LIKE_PATTERN_LENGTH <? SQL.bytes pattern then Raises OperationalError
      else Returns (matching st search_term)
  end.

Definition list_items (st : Store) : list Item := items st.

(** ** class InventoryShell *)

(** [quantity = args[3] if len(args) > 3 else 1], then [int(quantity)],
    with 1 again on [ValueError]. *)
Definition quantity_of (arg3 : option string) : Z :=
  match arg3 with
  | Some text => default 1 (Py.int text)
  | None => 1
  end.

(** [do_add]: the lines printed and the store left. *)
Definition do_add (st : Store) (now : Z) (arg : string) : outcome (list string * Store) :=
  let args := Py.split 3 arg in
  match args with
  | [] => Returns (["Error: Item name is required"], st)
  | name :: _ =>
      let description := args !! 1%nat in
      let location := args !! 2%nat in
      let quantity := quantity_of (args !! 3%nat) in
      '(id, st') ← add_item st now name description location quantity;
      Returns (["Added item with ID: " +:+ pretty id], st')
  end.

(** The three lines under the title of a table. *)
Definition table_head : list string :=
  [ Py.times 80 "-";
    Py.ljust 4 "ID" +:+ " | " +:+ Py.ljust 20 "Name" +:+ " | " +:+
    Py.ljust 15 "Location" +:+ " | " +:+ Py.ljust 8 "Quantity" +:+ " | " +:+
    "Description";
    Py.times 80 "-" ].

(** One row of a table; [None] and the empty text print alike. *)
Definition row_line (item : Item) : string :=
  let desc := default "" (description item) in
  let location := default "" (location item) in
  Py.ljust 4 (pretty (item_id item)) +:+ " | " +:+
  Py.ljust 20 (Py.slice 20 (name item)) +:+ " | " +:+
  Py.ljust 15 (Py.slice 15 location) +:+ " | " +:+
  Py.ljust 8 (pretty (quantity item)) +:+ " | " +:+
  Py.slice 30 desc.

(** [do_list]: the lines printed. *)
Definition do_list (st : Store) : list string :=
  match list_items st with
  | [] => ["No items in inventory"]
  | items => [String "010" "Current Inventory:"] ++ table_head ++ (row_line <$> items)
  end.

(** [do_search]: the lines printed. *)
Definition do_search (st : Store) (arg : string) : outcome (list string) :=
  match arg with
  | EmptyString => Returns ["Error: Search term is required"]
  | String _ _ =>
      items ← search_items st arg;
      match items with
      | [] => Returns ["No items found matching '" +:+ arg +:+ "'"]
      | _ :: _ =>
          Returns ([String "010" ("Search results for '" +:+ arg +:+ "':")] ++
                   table_head ++ (row_line <$> items))
      end
  end.

(** [do_delete]: [ValueError] is caught, nothing else. *)
Definition do_delete (st : Store) (arg : string) : outcome (list string * Store) :=
  match Py.int arg with
  | Some item_id =>
      '(deleted, st') ← delete_item st item_id;
      Returns ([if deleted : bool then "Deleted item " +:+ pretty item_id
                else "No item found with ID " +:+ pretty item_id], st')
  | None => Returns (["Error: Please provide a valid item ID"], st)
  end.

(** [do_quit]: the line printed and the value that ends the loop. *)
Definition do_quit : list string * bool := (["Goodbye!"], true).

(** ** Sequences of calls *)

Inductive call : Type :=
| Add (now : Z) (name : string) (description location : option string) (quantity : Z)
| Get (id : Z)
| Update (now : Z) (id : Z) (kwargs : gmap string pyval)
| Delete (id : Z)
| Search (term : string)
| List.

Inductive value : Type :=
| VId (id : Z)
| VRow (row : option Item)
| VBool (b : bool)
| VRows (rows : list Item).

Definition exec (st : Store) (c : call) : outcome (value * Store) :=
  match c with
  | Add now n d l q => '(id, st') ← add_item st now n d l q; Returns (VId id, st')
  | Get id => row ← get_item st id; Returns (VRow row, st)
  | Update now id kwargs => '(b, st') ← update_item st now id kwargs; Returns (VBool b, st')
  | Delete id => '(b, st') ← delete_item st id; Returns (VBool b, st')
  | Search term => rows ← search_items st term; Returns (VRows rows, st)
  | List => Returns (VRows (list_items st), st)
  end.

(** The calls of a program in order; an exception nobody catches ends it. *)
Fixpoint run (st : Store) (calls : list call) : outcome (list value * Store) :=
  match calls with
  | [] => Returns ([], st)
  | c :: calls' =>
      '(v, st1) ← exec st c;
      '(vs, st2) ← run st1 calls';
      Returns (v :: vs, st2)
  end.

(** The ids the [add] calls of a run returned, in order. *)
Definition added_ids (vs : list value) : list Z :=
  omap (λ v, match v with VId id => Some id | _ => None end) vs.

(** The clock readings a call takes, its keywords being accepted:
    [add_item] reads the clock first thing, [update_item] once it has
    found a field to set. *)
Definition readings (c : call) : list Z :=
  match c with
  | Add now _ _ _ _ => [now]
  | Update now _ kwargs => if decide (allowed kwargs = ∅) then [] else [now]
  | _ => []
  end.

(** ** Vocabulary of the statements *)

(** [all(p(c) for c in s)] *)
Fixpoint every (p : ascii → bool) (s : string) : bool :=
  match s with
  | String c s' => p c && every p s'
  | EmptyString => true
  end.

(** A text without white space. *)
Definition word (t : string) : bool := every (λ c, negb (Py.isspace c)) t.

(** The text after a word is empty or begins with white space. *)
Definition at_gap (s : string) : bool :=
  match s with
  | String c _ => Py.isspace c
  | EmptyString => true
  end.

Definition is_nul (c : ascii) : bool := Ascii.eqb c "000".

Definition nul_free (s : string) : bool := every (λ c, negb (is_nul c)) s.

(** A search term without the characters LIKE gives a meaning to. *)
Definition plain (term : string) : bool :=
  every (λ c, negb (Ascii.eqb c "%") && negb (Ascii.eqb c "_") && negb (is_nul c)) term.

(** [term in name or (description is not None and term in description)] *)
Definition holds (term name : string) (description : option string) : bool :=
  Py.contains term name || from_option (Py.contains term) false description.

(** The rows of every id but [id] are the same list in both stores, and
    [get_item] on another id answers the same. *)
Definition untouched (id : Z) (st st' : Store) : Prop :=
  filter (λ r, item_id r ≠ id) (items st') = filter (λ r, item_id r ≠ id) (items st) ∧
  ∀ id', id' ≠ id → get_item st' id' = get_item st id'.

(** Row by row, the same id and the same [date_added]. *)
Definition same_keys (rows rows' : list Item) : Prop :=
  Forall2 (λ r r', item_id r' = item_id r ∧ date_added r' = date_added r) rows rows'.

(** The primary key: ids grow along the table, are positive and counted,
    and the counter is a 64-bit integer. *)
Definition keyed (st : Store) : Prop :=
  StronglySorted Z.lt (item_id <$> items st) ∧
  Forall (λ r, 0 < item_id r ≤ seq st) (items st) ∧
  0 ≤ seq st ≤ SQL.INT64_MAX.

(** A line of five columns, the first four 4, 20, 15 and 8 characters
    wide and the last at most 30, with [" | "] between them. *)
Definition aligned (line : string) : Prop :=
  ∃ c1 c2 c3 c4 c5,
    line = c1 +:+ " | " +:+ c2 +:+ " | " +:+ c3 +:+ " | " +:+ c4 +:+ " | " +:+ c5 ∧
    String.length c1 = 4%nat ∧ String.length c2 = 20%nat ∧
    String.length c3 = 15%nat ∧ String.length c4 = 8%nat ∧
    (String.length c5 ≤ 30)%nat.

(** The ids and quantities that fit their columns. *)
Definition narrow (r : Item) : Prop :=
  -1000 < item_id r < 10000 ∧ -10000000 < quantity r < 100000000.

(** [cell] is [text] with spaces after it up to the width [w], nothing
    of it cut. *)
Definition padded (w : nat) (text cell : string) : Prop :=
  ∃ pad, cell = text +:+ pad ∧ every (Ascii.eqb " ") pad = true ∧
         String.length cell = (w `max` String.length text)%nat.

(** [piece] is the first [n] characters of [text], or all of it. *)
Definition clipped (n : nat) (text piece : string) : Prop :=
  ∃ rest, text = piece +:+ rest ∧
          String.length piece = (n `min` String.length text)%nat.

(** The line of a row in a table: id, name, location, quantity and
    description in this order, numbers in decimal, name and location
    clipped to their columns, an absent text printed as the empty one. *)
Definition printed (r : Item) (line : string) : Prop :=
  ∃ c1 c2 c3 c4 c5 n l,
    line = c1 +:+ " | " +:+ c2 +:+ " | " +:+ c3 +:+ " | " +:+ c4 +:+ " | " +:+ c5 ∧
    padded 4 (pretty (item_id r)) c1 ∧
    clipped 20 (name r) n ∧ padded 20 n c2 ∧
    clipped 15 (default "" (location r)) l ∧ padded 15 l c3 ∧
    padded 8 (pretty (quantity r)) c4 ∧
    clipped 30 (default "" (description r)) c5.

(** The title, the rule and the header of the table of [do_list]. *)
Definition title_line : string := String "010" "Current Inventory:".
Definition rule_line : string :=
  "--------------------------------------------------------------------------------".
Definition header_line : string :=
  "ID   | Name                 | Location        | Quantity | Description".

(** The store [add_item] leaves when SQLite accepts the row. *)
Definition added (st : Store) (now : Z) (n : string) (d l : option string) (q : Z)
  : Store :=
  {| items := items st ++ [new_row (high_water st + 1) now n d l q];
     seq := high_water st + 1 |}.

(** [update_item(id, quantity=5)] *)
Definition quantity_5 : gmap string pyval := {[ "quantity" := PInt 5 ]}.

(** Every rowid of the table has been counted in [sqlite_sequence]. *)
Definition counted (st : Store) : Prop := max_rowid (items st) ≤ seq st.

(** No row was added later than [t], nor modified before it was added. *)
Definition stamped (t : Z) (st : Store) : Prop :=
  ∀ r, r ∈ items st → date_added r ≤ last_modified r ∧ date_added r ≤ t.

(** * Properties *)

(** ** Outcomes and 64-bit integers *)

Section Basics.

Lemma fits_spec (n : Z) :
  SQL.fits n = true ↔ SQL.INT64_MIN ≤ n ≤ SQL.INT64_MAX.
Proof. unfold SQL.fits. rewrite andb_true_iff, !Z.leb_le. tauto. Qed.

Lemma bind_int_fits (n : Z) : SQL.fits n = true → SQL.bind_int n = Returns n.
Proof. unfold SQL.bind_int. by intros ->. Qed.

Lemma bind_int_returns (n m : Z) :
  SQL.bind_int n = Returns m → m = n ∧ SQL.fits n = true.
Proof. unfold SQL.bind_int. destruct (SQL.fits n); naive_solver. Qed.

Lemma max_rowid_nonneg (rows : list Item) : 0 ≤ max_rowid rows.
Proof.
  unfold max_rowid. induction rows as [|r rows IH]; [done|].
  rewrite fmap_cons. cbn [foldr]. lia.
Qed.

Lemma max_rowid_ge (rows : list Item) (r : Item) :
  r ∈ rows → item_id r ≤ max_rowid rows.
Proof.
  unfold max_rowid.
  induction 1 as [r rows|r r' rows _ IH]; rewrite fmap_cons; cbn [foldr]; lia.
Qed.

Lemma high_water_nonneg (st : Store) : 0 ≤ high_water st.
Proof. unfold high_water. pose proof (max_rowid_nonneg (items st)). lia. Qed.

Lemma high_water_ge (st : Store) (r : Item) :
  r ∈ items st → item_id r ≤ high_water st.
Proof. intros Hr%max_rowid_ge. unfold high_water. lia. Qed.

Lemma high_water_seq (st : Store) : seq st ≤ high_water st.
Proof. unfold high_water. lia. Qed.

Lemma select_none {A} (P : A → Prop) `{!∀ x, Decision (P x)} (l : list A) :
  (∀ x, x ∈ l → ¬ P x) → filter P l = [].
Proof.
  induction l as [|x l IH]; intros Hl; [done|].
  rewrite filter_cons_False by (apply Hl; left).
  apply IH. intros y Hy. apply Hl. by right.
Qed.

(** No row of the table carries an id above the high-water mark. *)
Lemma select_above_high_water (st : Store) (id : Z) :
  high_water st < id → filter (λ r, item_id r = id) (items st) = [].
Proof.
  intros Hid. apply select_none. intros r Hr%high_water_ge. lia.
Qed.

End Basics.

(** ** [add_item] and [get_item] *)

Section AddGet.

(** [add_item] returns exactly when the quantity is a 64-bit integer and a
    rowid is left; it then appends one row under the next rowid. *)
Lemma add_item_returns (st : Store) (now : Z) (n : string) (d l : option string)
    (q id : Z) (st' : Store) :
  add_item st now n d l q = Returns (id, st') ↔
  SQL.fits q = true ∧ high_water st < SQL.INT64_MAX ∧ id = high_water st + 1 ∧
  st' = {| items := items st ++ [new_row id now n d l q]; seq := id |}.
Proof.
  unfold add_item, SQL.bind_int, next_rowid, new_row.
  destruct (SQL.fits q); simpl; [|split; [done|by intros [? _]]].
  destruct (Z.ltb_spec (high_water st) SQL.INT64_MAX); simpl.
  - split; [intros [= <- <-]|intros (_ & _ & -> & ->)]; done.
  - split; [done|]. intros (_ & ? & _). lia.
Qed.

Lemma get_item_appended (st : Store) (row : Item) (s : Z) :
  high_water st < item_id row → SQL.fits (item_id row) = true →
  get_item {| items := items st ++ [row]; seq := s |} (item_id row)
  = Returns (Some row).
Proof.
  intros Hfresh Hfits. unfold get_item. rewrite bind_int_fits by done. simpl.
  rewrite filter_app, select_above_high_water by done.
  rewrite filter_cons_True by done. done.
Qed.

(** C3: a call of [add_item] that SQLite accepts (the quantity is a 64-bit
    integer, a rowid is left) returns an id under which [get_item] finds
    a record carrying the supplied name, description, location and
    quantity, with [date_added] equal to [last_modified]. *)
Theorem add_then_get (st : Store) (now : Z) (n : string) (d l : option string) (q : Z) :
  SQL.fits q = true → high_water st < SQL.INT64_MAX →
  ∃ id st' row,
    add_item st now n d l q = Returns (id, st') ∧
    get_item st' id = Returns (Some row) ∧
    item_id row = id ∧ name row = n ∧ description row = d ∧
    location row = l ∧ quantity row = q ∧
    date_added row = last_modified row.
Proof.
  intros Hq Hroom.
  set (id := high_water st + 1).
  exists id, {| items := items st ++ [new_row id now n d l q]; seq := id |},
         (new_row id now n d l q).
  split; [by apply add_item_returns|].
  split; [|done].
  apply (get_item_appended st (new_row id now n d l q)); simpl; [lia|].
  apply fits_spec. pose proof (high_water_nonneg st).
  unfold SQL.INT64_MIN, SQL.INT64_MAX in *. lia.
Qed.

Lemma add_then_get_witness :
  SQL.fits 3 = true ∧ high_water empty_store < SQL.INT64_MAX ∧
  ∃ id st' row,
    add_item empty_store 100 "Hammer" (Some "Claw hammer") (Some "Shelf A") 3
      = Returns (id, st') ∧
    get_item st' id = Returns (Some row) ∧
    item_id row = id ∧ name row = "Hammer" ∧ description row = Some "Claw hammer" ∧
    location row = Some "Shelf A" ∧ quantity row = 3 ∧
    date_added row = last_modified row.
Proof.
  split; [reflexivity|]. split; [reflexivity|].
  apply add_then_get; reflexivity.
Defined.

End AddGet.

(** ** Selecting rows *)

Section Select.

Context {A : Type} (P : A → Prop) `{!∀ x, Decision (P x)}.

Lemma select_all (l : list A) : (∀ x, x ∈ l → P x) → filter P l = l.
Proof.
  induction l as [|x l IH]; intros Hl; [done|].
  rewrite filter_cons_True by (apply Hl; left).
  f_equal. apply IH. intros y Hy. apply Hl. by right.
Qed.

Lemma select_fmap (f : A → A) (l : list A) :
  (∀ x, P (f x) ↔ P x) → filter P (f <$> l) = f <$> filter P l.
Proof.
  intros Hf. induction l as [|x l IH]; [done|].
  rewrite fmap_cons. destruct (decide (P x)) as [Hx|Hx].
  - rewrite !filter_cons_True by (done || by apply Hf).
    rewrite fmap_cons. by f_equal.
  - rewrite !filter_cons_False by (done || by rewrite Hf). done.
Qed.

Lemma select_drops (l : list A) :
  (length (filter P l) < length l)%nat ↔ ∃ x, x ∈ l ∧ ¬ P x.
Proof.
  split.
  - intros Hlt. destruct (decide (Forall P l)) as [Hall|Hex].
    + rewrite select_all in Hlt by (by apply Forall_forall). lia.
    + apply not_Forall_Exists, Exists_exists in Hex; [done|apply _].
  - intros (x & Hx & HP). by eapply length_filter_lt.
Qed.

End Select.

(** ** [delete_item] *)

Section Delete.

Lemma delete_item_returns (st : Store) (id : Z) :
  SQL.fits id = true →
  delete_item st id =
    Returns (bool_decide (Exists (λ r, item_id r = id) (items st)),
             {| items := filter (λ r, item_id r ≠ id) (items st); seq := seq st |}).
Proof.
  intros Hid. unfold delete_item. rewrite bind_int_fits by done. simpl.
  do 2 f_equal. apply bool_decide_ext. rewrite Exists_exists.
  pose proof (length_filter (λ r, item_id r ≠ id) (items st)).
  pose proof (select_drops (λ r, item_id r ≠ id) (items st)) as [Hdrop Hkeep].
  split.
  - intros Hlt. destruct Hdrop as (r & Hr & Hne); [lia|].
    exists r. split; [done|]. by destruct (decide (item_id r = id)).
  - intros (r & Hr & Heq). cut (length (filter (λ r, item_id r ≠ id) (items st))
                                  < length (items st))%nat; [lia|].
    apply Hkeep. exists r. split; [done|]. by intros [].
Qed.

Lemma delete_item_raises (st : Store) (id : Z) :
  SQL.fits id = false → delete_item st id = Raises OverflowError.
Proof. intros Hid. unfold delete_item, SQL.bind_int. by rewrite Hid. Qed.



End Delete.

(** ** [update_item] *)

Section Update.

Lemma disjoint_parameters (kwargs : gmap string pyval) :
  kwargs !! "self" = None → kwargs !! "item_id" = None → dom kwargs ## parameters.
Proof.
  intros Hself Hid. unfold parameters. apply disjoint_union_r.
  split; apply disjoint_singleton_r; by apply not_elem_of_dom.
Qed.

Lemma lookup_nonempty (m : gmap string pyval) (k : string) (v : pyval) :
  m !! k = Some v → m ≠ ∅.
Proof. intros Hk ->. by rewrite lookup_empty in Hk. Qed.

Lemma update_rows_miss (a : assignment) (now id : Z) (rows : list Item) :
  (∀ r, r ∈ rows → item_id r ≠ id) → update_rows a now id rows = rows.
Proof.
  intros Hmiss. unfold update_rows. induction rows as [|r rows IH]; [done|].
  rewrite fmap_cons, decide_False by (apply Hmiss; left).
  f_equal. apply IH. intros r' Hr'. apply Hmiss. by right.
Qed.




(** With a field to set, the values and the id are bound and the
    statement runs. *)
Lemma update_item_executes (st : Store) (now id : Z) (kwargs : gmap string pyval) :
  dom kwargs ## parameters → allowed kwargs ≠ ∅ →
  map_Forall (λ _ v, bindable v = true) (allowed kwargs) → SQL.fits id = true →
  update_item st now id kwargs =
    st' ← execute_update st now id (allowed kwargs); Returns (true, st').
Proof.
  intros Hdom Hsome Hfit Hid. unfold update_item, bind_values.
  rewrite decide_True, decide_False, bool_decide_eq_true_2 by done. simpl.
  by rewrite bind_int_fits.
Qed.




Lemma typed_name (updates : gmap string pyval) (a : assignment) :
  typed updates = Some a → updates !! "name" ≠ Some PNone.
Proof.
  unfold typed, column. intros Ha Hnull. rewrite Hnull in Ha. simpl in Ha. done.
Qed.

Lemma execute_update_typed (st : Store) (now id : Z) (updates : gmap string pyval)
    (a : assignment) :
  typed updates = Some a →
  execute_update st now id updates =
    Returns {| items := update_rows a now id (items st); seq := seq st |}.
Proof.
  intros Ha. unfold execute_update.
  destruct (decide (Forall (λ r, item_id r ≠ id) (items st))) as [Hmiss|Hhit].
  - rewrite update_rows_miss; [by destruct st|]. by apply Forall_forall.
  - rewrite decide_False by by eapply typed_name. by rewrite Ha.
Qed.

Lemma update_item_fields (st : Store) (now id : Z) (kwargs : gmap string pyval)
    (a : assignment) :
  dom kwargs ## parameters → allowed kwargs ≠ ∅ →
  map_Forall (λ _ v, bindable v = true) (allowed kwargs) →
  typed (allowed kwargs) = Some a →
  SQL.fits id = true →
  update_item st now id kwargs =
    Returns (true, {| items := update_rows a now id (items st); seq := seq st |}).
Proof.
  intros Hdom Hsome Hfit Ha Hid.
  rewrite update_item_executes by done. by rewrite (execute_update_typed _ _ _ _ a).
Qed.

(** Every way [update_item] returns. *)
Lemma update_item_returns (st : Store) (now id : Z) (kwargs : gmap string pyval)
    (b : bool) (st' : Store) :
  update_item st now id kwargs = Returns (b, st') →
  (allowed kwargs = ∅ ∧ b = false ∧ st' = st) ∨
  (allowed kwargs ≠ ∅ ∧ b = true ∧ SQL.fits id = true ∧
   ∃ a, (Forall (λ r, item_id r ≠ id) (items st) ∨ typed (allowed kwargs) = Some a) ∧
        st' = {| items := update_rows a now id (items st); seq := seq st |}).
Proof.
  unfold update_item. destruct (decide (dom kwargs ## parameters)) as [Hdom|]; [|done].
  destruct (decide (allowed kwargs = ∅)) as [Hnone|Hsome].
  - intros [= <- <-]. by left.
  - destruct (bind_values (allowed kwargs)) as [[]| |]; simpl; [|done..].
    unfold SQL.bind_int. destruct (SQL.fits id) eqn:Hid; simpl; [|done].
    unfold execute_update.
    destruct (decide (Forall (λ r, item_id r ≠ id) (items st))) as [Hmiss|Hhit]; simpl.
    + intros [= <- <-]. right. do 3 (split; [done|]).
      exists {| set_name := None; set_description := None;
                set_location := None; set_quantity := None |}.
      split; [by left|]. rewrite update_rows_miss; [by destruct st|].
      by apply Forall_forall.
    + destruct (decide (allowed kwargs !! "name" = Some PNone)); [done|].
      destruct (typed (allowed kwargs)) as [a|] eqn:Ha; simpl; [|done].
      intros [= <- <-]. right. eauto 10.
Qed.


End Update.

Section UpdateWitness.



End UpdateWitness.

(** ** What [update_item] and [delete_item] leave alone *)

Section Frame.

Lemma update_rows_select (Q : Z → Prop) `{!∀ i, Decision (Q i)}
    (a : assignment) (now id : Z) (rows : list Item) :
  filter (λ r, Q (item_id r)) (update_rows a now id rows)
  = update_rows a now id (filter (λ r, Q (item_id r)) rows).
Proof.
  unfold update_rows. apply (select_fmap (λ r, Q (item_id r))).
  intros r. by destruct (decide (item_id r = id)).
Qed.

Lemma update_rows_keys (a : assignment) (now id : Z) (rows : list Item) :
  same_keys rows (update_rows a now id rows).
Proof.
  unfold same_keys, update_rows. induction rows as [|r rows IH]; [constructor|].
  rewrite fmap_cons. constructor; [|done].
  by destruct (decide (item_id r = id)).
Qed.

Lemma same_keys_refl (rows : list Item) : same_keys rows rows.
Proof. unfold same_keys. induction rows; by constructor. Qed.

Lemma update_rows_hit (a : assignment) (now id : Z) (rows : list Item) :
  filter (λ r, item_id r = id) (update_rows a now id rows)
  = set_columns a now <$> filter (λ r, item_id r = id) rows.
Proof.
  unfold update_rows. induction rows as [|r rows IH]; [done|].
  rewrite fmap_cons. destruct (decide (item_id r = id)) as [Hr|Hr].
  - rewrite !filter_cons_True by done. rewrite fmap_cons. by f_equal.
  - rewrite !filter_cons_False by done. done.
Qed.

(** A store whose rows of the other ids are selected alike is untouched. *)
Lemma untouched_select (id : Z) (st st' : Store) :
  (∀ (Q : Z → Prop) `{!∀ i, Decision (Q i)}, (∀ i, Q i → i ≠ id) →
     filter (λ r, Q (item_id r)) (items st') = filter (λ r, Q (item_id r)) (items st)) →
  untouched id st st'.
Proof.
  intros Hsel. split; [exact (Hsel (λ i, i ≠ id) _ (λ i Hi, Hi))|].
  intros id' Hne. unfold get_item.
  destruct (SQL.bind_int id') as [i| |] eqn:Hi; [|done..].
  apply bind_int_returns in Hi as [-> _]. simpl.
  pose proof (Hsel (λ i, i = id') _) as Hsame. simpl in Hsame.
  rewrite Hsame; [done|]. by intros i ->.
Qed.

Lemma update_item_untouched (st : Store) (now id : Z) (kwargs : gmap string pyval)
    (b : bool) (st' : Store) :
  update_item st now id kwargs = Returns (b, st') →
  untouched id st st' ∧ same_keys (items st) (items st').
Proof.
  intros [(_ & _ & ->)|(_ & _ & _ & a & _ & ->)]%update_item_returns.
  - split; [by apply untouched_select|apply same_keys_refl].
  - split; [|apply update_rows_keys].
    apply untouched_select. intros Q HQ Hne. simpl.
    rewrite (update_rows_select Q). apply update_rows_miss.
    intros r [HQr _]%list_elem_of_filter. by apply Hne.
Qed.

Lemma delete_item_untouched (st : Store) (id : Z) (b : bool) (st' : Store) :
  delete_item st id = Returns (b, st') → untouched id st st'.
Proof.
  unfold delete_item, SQL.bind_int.
  destruct (SQL.fits id); simpl; [|done]. intros [= _ <-].
  apply untouched_select. intros Q HQ Hne. simpl.
  rewrite list_filter_filter. apply list_filter_iff.
  intros r. split; [tauto|]. intros HQr. split; [done|]. by apply Hne.
Qed.

(** C9: a call of [update_item] or [delete_item] that returns leaves every
    row of another id as it was and where it was: the rows of the other
    ids are the same list, and [get_item] on another id answers as
    before.  [update_item] moreover keeps, row by row, the id and
    [date_added]. *)
Theorem update_delete_frame (st : Store) (now id : Z) (kwargs : gmap string pyval)
    (b : bool) (st' : Store) :
  (update_item st now id kwargs = Returns (b, st') →
   untouched id st st' ∧ same_keys (items st) (items st')) ∧
  (delete_item st id = Returns (b, st') → untouched id st st').
Proof. split; [apply update_item_untouched|apply delete_item_untouched]. Qed.

End Frame.

Section FrameWitness.

Lemma update_delete_frame_witness :
  let hammer := new_row 1 100 "Hammer" (Some "Claw hammer") (Some "Shelf A") 3 in
  let nails := new_row 2 101 "Nails" None None 40 in
  let st := {| items := [hammer; nails]; seq := 2 |} in
  let updated :=
    {| items := [{| item_id := 1; name := "Hammer"; description := Some "Claw hammer";
                    location := Some "Shelf A"; quantity := 5;
                    date_added := 100; last_modified := 200 |}; nails];
       seq := 2 |} in
  let deleted := {| items := [nails]; seq := 2 |} in
  (update_item st 200 1 quantity_5 = Returns (true, updated) ∧
   untouched 1 st updated ∧ same_keys (items st) (items updated)) ∧
  (delete_item st 1 = Returns (true, deleted) ∧ untouched 1 st deleted).
Proof.
  intros hammer nails st updated deleted. split.
  - split; [reflexivity|].
    apply (update_delete_frame st 200 1 quantity_5 true updated). reflexivity.
  - split; [reflexivity|].
    apply (update_delete_frame st 200 1 quantity_5 true deleted). reflexivity.
Defined.

End FrameWitness.

(** ** [update_item] then [get_item] *)

Section UpdateGet.

Lemma get_item_returns (st : Store) (id : Z) (row : option Item) :
  get_item st id = Returns row ↔
  SQL.fits id = true ∧ row = head (filter (λ r, item_id r = id) (items st)).
Proof.
  unfold get_item, SQL.bind_int. destruct (SQL.fits id); simpl.
  - split; [by intros [= <-]|by intros [_ ->]].
  - split; [done|by intros [? _]].
Qed.

Lemma update_quantity_5 (st : Store) (now id : Z) :
  SQL.fits id = true →
  update_item st now id quantity_5 =
    Returns (true,
             {| items := update_rows {| set_name := None; set_description := None;
                                        set_location := None; set_quantity := Some 5 |}
                                     now id (items st);
                seq := seq st |}).
Proof.
  intros Hid. apply update_item_fields; [by apply disjoint_parameters| | |done..].
  - by apply (lookup_nonempty _ "quantity" (PInt 5)).
  - apply (bool_decide_unpack _). vm_compute. exact I.
Qed.

(** C6, as the code has it: for an id that [get_item] finds,
    [update_item] with quantity 5 followed by [get_item] yields the same
    record with quantity 5 and [last_modified] set to the clock reading of
    the update, whatever that reading is; [last_modified] is strictly
    greater than the value before exactly when the reading is. *)
Theorem update_quantity_then_get (st : Store) (now id : Z) (r : Item) :
  get_item st id = Returns (Some r) →
  ∃ st' r',
    update_item st now id quantity_5 = Returns (true, st') ∧
    get_item st' id = Returns (Some r') ∧
    r' = {| item_id := item_id r; name := name r; description := description r;
            location := location r; quantity := 5;
            date_added := date_added r; last_modified := now |} ∧
    quantity r' = 5 ∧
    last_modified r' = now ∧
    (last_modified r < last_modified r' ↔ last_modified r < now).
Proof.
  intros [Hid Hr]%get_item_returns.
  eexists _, _. split; [by apply update_quantity_5|].
  split; [|split; [reflexivity|by simpl]].
  apply get_item_returns. split; [done|]. simpl.
  rewrite update_rows_hit.
  destruct (filter _ (items st)) as [|r0 rows]; simplify_eq/=. done.
Qed.

Lemma update_quantity_then_get_witness :
  let hammer := new_row 1 100 "Hammer" (Some "Claw hammer") (Some "Shelf A") 3 in
  let st := {| items := [hammer]; seq := 1 |} in
  get_item st 1 = Returns (Some hammer) ∧
  ∃ st' r',
    update_item st 200 1 quantity_5 = Returns (true, st') ∧
    get_item st' 1 = Returns (Some r') ∧
    r' = {| item_id := 1; name := "Hammer"; description := Some "Claw hammer";
            location := Some "Shelf A"; quantity := 5;
            date_added := 100; last_modified := 200 |} ∧
    quantity r' = 5 ∧
    last_modified r' = 200 ∧
    (last_modified hammer < last_modified r' ↔ last_modified hammer < 200).
Proof.
  intros hammer st. split; [reflexivity|].
  apply (update_quantity_then_get st 200 1 hammer). reflexivity.
Defined.

(** C6 as stated fails: the naive local clock can read the same or an
    earlier instant than the one stored (a clock set back, the hour
    repeated at the end of daylight saving time), and [last_modified] is
    then not greater than before. *)
Lemma update_clock_set_back :
  let hammer := new_row 1 100 "Hammer" (Some "Claw hammer") (Some "Shelf A") 3 in
  let st := {| items := [hammer]; seq := 1 |} in
  add_item empty_store 100 "Hammer" (Some "Claw hammer") (Some "Shelf A") 3
    = Returns (1, st) ∧
  get_item st 1 = Returns (Some hammer) ∧
  ∃ st' r',
    update_item st 40 1 quantity_5 = Returns (true, st') ∧
    get_item st' 1 = Returns (Some r') ∧
    quantity r' = 5 ∧
    ¬ (last_modified hammer < last_modified r').
Proof.
  intros hammer st. split; [reflexivity|]. split; [reflexivity|].
  eexists _, _. split; [reflexivity|]. split; [reflexivity|].
  split; [reflexivity|]. simpl. lia.
Qed.

End UpdateGet.

(** ** Rowids over the life of the store *)

Section Rowids.

Lemma counted_high_water (st : Store) : counted st → high_water st = seq st.
Proof. unfold counted, high_water. lia. Qed.

Lemma max_rowid_app (rows rows' : list Item) :
  max_rowid (rows ++ rows') = Z.max (max_rowid rows) (max_rowid rows').
Proof.
  unfold max_rowid. induction rows as [|r rows IH].
  - simpl. pose proof (max_rowid_nonneg rows'). unfold max_rowid in *. lia.
  - rewrite <- app_comm_cons, !fmap_cons. cbn [foldr]. lia.
Qed.

Lemma max_rowid_update (a : assignment) (now id : Z) (rows : list Item) :
  max_rowid (update_rows a now id rows) = max_rowid rows.
Proof.
  unfold max_rowid. f_equal. unfold update_rows. rewrite <- list_fmap_compose.
  apply list_fmap_ext. intros _ r _. simpl. by destruct (decide (item_id r = id)).
Qed.

Lemma max_rowid_filter (P : Item → Prop) `{!∀ r, Decision (P r)} (rows : list Item) :
  max_rowid (filter P rows) ≤ max_rowid rows.
Proof.
  unfold max_rowid. induction rows as [|r rows IH]; [done|].
  destruct (decide (P r)).
  - rewrite filter_cons_True, !fmap_cons by done. cbn [foldr]. lia.
  - rewrite filter_cons_False, fmap_cons by done. cbn [foldr]. lia.
Qed.

(** One call: the counter never goes down, and an id [add_item] returns
    is above the counter it found and is the counter it leaves. *)
Lemma exec_counter (st : Store) (c : call) (v : value) (st1 : Store) :
  counted st → exec st c = Returns (v, st1) →
  counted st1 ∧ seq st ≤ seq st1 ∧
  ∀ id, v = VId id → seq st < id ∧ id = seq st1.
Proof.
  intros Hst. destruct c as [now n d l q|id|now id kwargs|id|term|]; simpl.
  - destruct (add_item st now n d l q) as [[id st']| |] eqn:Hadd; simpl; [|done..].
    intros [= <- <-]. apply add_item_returns in Hadd as (_ & _ & -> & ->).
    rewrite counted_high_water by done. unfold counted in *. simpl.
    rewrite max_rowid_app. unfold max_rowid at 2. simpl.
    pose proof (max_rowid_nonneg (items st)).
    split; [lia|]. split; [lia|]. intros ? [= <-]. lia.
  - destruct (get_item st id); simpl; [|done..]. intros [= <- <-]. by repeat split.
  - destruct (update_item st now id kwargs) as [[b st']| |] eqn:Hupd; simpl; [|done..].
    intros [= <- <-]. apply update_item_returns in Hupd
      as [(_ & _ & ->)|(_ & _ & _ & a & _ & ->)]; [by repeat split|].
    unfold counted in *. simpl. rewrite max_rowid_update. by repeat split.
  - destruct (delete_item st id) as [[b st']| |] eqn:Hdel; simpl; [|done..].
    intros [= <- <-]. unfold delete_item, SQL.bind_int in Hdel.
    destruct (SQL.fits id); simpl in Hdel; [|done]. injection Hdel as _ <-.
    unfold counted in *. simpl.
    pose proof (max_rowid_filter (λ r, item_id r ≠ id) (items st)).
    split; [lia|]. by split.
  - destruct (search_items st term); simpl; [|done..].
    intros [= <- <-]. by repeat split.
  - intros [= <- <-]. by repeat split.
Qed.

Lemma run_counter (calls : list call) (st : Store) (vs : list value) (st' : Store) :
  counted st → run st calls = Returns (vs, st') →
  counted st' ∧ seq st ≤ seq st' ∧
  Forall (λ id, seq st < id) (added_ids vs) ∧
  StronglySorted Z.lt (added_ids vs).
Proof.
  revert st vs. induction calls as [|c calls IH]; intros st vs Hst; simpl.
  - intros [= <- <-]. repeat split; [done|lia|constructor..].
  - destruct (exec st c) as [[v st1]| |] eqn:Hexec; simpl; [|done..].
    destruct (run st1 calls) as [[vs1 st2]| |] eqn:Hrun; simpl; [|done..].
    intros [= <- <-].
    destruct (exec_counter _ _ _ _ Hst Hexec) as (Hst1 & Hle & Hid).
    destruct (IH _ _ Hst1 Hrun) as (Hst2 & Hle' & Hall & Hsorted).
    split; [done|]. split; [lia|].
    assert (Forall (λ id, seq st < id) (added_ids vs1)) as Hall'.
    { eapply Forall_impl; [done|]. simpl. lia. }
    unfold added_ids in *. destruct v as [id| | |]; simpl; try done.
    destruct (Hid id eq_refl) as [Hlt ->].
    split; [by constructor|]. by constructor.
Qed.

(** C7: over any run of calls on a store created empty, the ids the
    [add_item] calls return are strictly increasing in the order of the
    calls: each is greater than every id returned before it, so no id is
    returned twice, whatever was deleted in between. *)
Theorem added_ids_increasing (calls : list call) (vs : list value) (st' : Store) :
  run (create_tables None) calls = Returns (vs, st') →
  StronglySorted Z.lt (added_ids vs) ∧ NoDup (added_ids vs) ∧
  Forall (λ id, 0 < id) (added_ids vs).
Proof.
  intros Hrun.
  destruct (run_counter calls empty_store vs st') as (_ & _ & Hpos & Hsorted);
    [done..|].
  split; [done|]. split; [|done].
  clear Hpos. induction Hsorted as [|id ids _ IH Hall]; constructor; [|done].
  intros Hin. rewrite Forall_forall in Hall. specialize (Hall _ Hin). lia.
Qed.

Lemma added_ids_increasing_witness :
  let calls := [Add 100 "Hammer" (Some "Claw hammer") (Some "Shelf A") 3;
                Add 101 "Nails" None None 40;
                Delete 2;
                Add 102 "Saw" None (Some "Shelf B") 1;
                Delete 1;
                Add 103 "Hammer" None None 1] in
  let vs := [VId 1; VId 2; VBool true; VId 3; VBool true; VId 4] in
  let st' := {| items := [new_row 3 102 "Saw" None (Some "Shelf B") 1;
                          new_row 4 103 "Hammer" None None 1];
                seq := 4 |} in
  run (create_tables None) calls = Returns (vs, st') ∧
  added_ids vs = [1; 2; 3; 4] ∧
  StronglySorted Z.lt (added_ids vs) ∧ NoDup (added_ids vs) ∧
  Forall (λ id, 0 < id) (added_ids vs).
Proof.
  intros calls vs st'. split; [reflexivity|]. split; [reflexivity|].
  apply (added_ids_increasing calls vs st'). reflexivity.
Defined.

End Rowids.

(** ** Time stamps *)

Section Clock.

Lemma exec_silent (st : Store) (c : call) (v : value) (st1 : Store) (t : Z) :
  readings c = [] → stamped t st → exec st c = Returns (v, st1) → stamped t st1.
Proof.
  intros Hquiet Hst. destruct c as [now n d l q|id|now id kwargs|id|term|]; simpl in *.
  - done.
  - destruct (get_item st id); simpl; [|done..]. by intros [= <- <-].
  - destruct (decide (allowed kwargs = ∅)) as [Hnone|]; [|done].
    destruct (update_item st now id kwargs) as [[b st']| |] eqn:Hupd; simpl; [|done..].
    intros [= <- <-].
    by apply update_item_returns in Hupd as [(_ & _ & ->)|(? & _)].
  - destruct (delete_item st id) as [[b st']| |] eqn:Hdel; simpl; [|done..].
    intros [= <- <-]. unfold delete_item, SQL.bind_int in Hdel.
    destruct (SQL.fits id); simpl in Hdel; [|done]. injection Hdel as _ <-.
    intros r [_ Hr]%list_elem_of_filter. by apply Hst.
  - destruct (search_items st term); simpl; [|done..]. by intros [= <- <-].
  - by intros [= <- <-].
Qed.

Lemma exec_reading (st : Store) (c : call) (v : value) (st1 : Store) (t now : Z) :
  readings c = [now] → t ≤ now → stamped t st →
  exec st c = Returns (v, st1) → stamped now st1.
Proof.
  intros Hread Hle Hst.
  destruct c as [now' n d l q|id|now' id kwargs|id|term|]; simpl in *; try done.
  - injection Hread as ->.
    destruct (add_item st now n d l q) as [[id st']| |] eqn:Hadd; simpl; [|done..].
    intros [= <- <-]. apply add_item_returns in Hadd as (_ & _ & -> & ->).
    intros r [Hr| ->%list_elem_of_singleton]%elem_of_app; simpl.
    + destruct (Hst r Hr). lia.
    + lia.
  - destruct (decide (allowed kwargs = ∅)) as [|Hsome]; [done|]. injection Hread as ->.
    destruct (update_item st now id kwargs) as [[b st']| |] eqn:Hupd; simpl; [|done..].
    intros [= <- <-]. apply update_item_returns in Hupd
      as [(? & _)|(_ & _ & _ & a & _ & ->)]; [done|].
    intros r' (r & -> & Hr)%list_elem_of_fmap. destruct (Hst r Hr).
    destruct (decide (item_id r = id)); simpl; lia.
Qed.

Lemma run_stamped (calls : list call) (st : Store) (t : Z)
    (vs : list value) (st' : Store) :
  stamped t st →
  Forall (λ now, t ≤ now) (calls ≫= readings) →
  StronglySorted Z.le (calls ≫= readings) →
  run st calls = Returns (vs, st') →
  ∃ t', stamped t' st'.
Proof.
  revert st t vs. induction calls as [|c calls IH]; intros st t vs Hst Hafter Hclock; simpl.
  - intros [= <- <-]. by exists t.
  - destruct (exec st c) as [[v st1]| |] eqn:Hexec; simpl; [|done..].
    destruct (run st1 calls) as [[vs1 st2]| |] eqn:Hrun; simpl; [|done..].
    intros [= <- <-]. rewrite bind_cons in Hafter, Hclock.
    assert (readings c = [] ∨ ∃ now, readings c = [now]) as [Hquiet|[now Hread]].
    { destruct c; simpl; eauto. case_decide; eauto. }
    + rewrite Hquiet in Hafter, Hclock. simpl in *.
      eapply (IH st1 t); [by eapply exec_silent|done..].
    + rewrite Hread in Hafter, Hclock. simpl in *.
      apply Forall_cons in Hafter as [Hle _].
      apply StronglySorted_inv in Hclock as [Hclock Hlater].
      eapply (IH st1 now); [by eapply exec_reading|done..].
Qed.

(** C5, as the code has it: over any run of calls on a store created
    empty in which no call reads the clock at an earlier instant than a
    call before it, every row of the store has [last_modified] greater
    than or equal to [date_added]. *)
Theorem last_modified_after_date_added (calls : list call)
    (vs : list value) (st' : Store) :
  StronglySorted Z.le (calls ≫= readings) →
  run (create_tables None) calls = Returns (vs, st') →
  ∀ r, r ∈ items st' → date_added r ≤ last_modified r.
Proof.
  intros Hclock Hrun.
  assert (∃ t0, Forall (λ now, t0 ≤ now) (calls ≫= readings)) as [t0 Hafter].
  { destruct (calls ≫= readings) as [|now nows]; [by exists 0|].
    exists now. apply StronglySorted_inv in Hclock as [_ Hlater].
    constructor; [lia|done]. }
  destruct (run_stamped calls empty_store t0 vs st') as [t' Hst']; [|done..|].
  { intros r Hr. by apply elem_of_nil in Hr. }
  intros r Hr. by destruct (Hst' r Hr).
Qed.

Lemma last_modified_after_date_added_witness :
  let calls := [Add 100 "Hammer" (Some "Claw hammer") (Some "Shelf A") 3;
                Add 100 "Nails" None None 40;
                Update 250 1 quantity_5;
                Delete 2;
                Update 300 1 {[ "colour" := PStr "red" ]}] in
  let hammer := {| item_id := 1; name := "Hammer"; description := Some "Claw hammer";
                   location := Some "Shelf A"; quantity := 5;
                   date_added := 100; last_modified := 250 |} in
  calls ≫= readings = [100; 100; 250] ∧
  StronglySorted Z.le (calls ≫= readings) ∧
  run (create_tables None) calls
    = Returns ([VId 1; VId 2; VBool true; VBool true; VBool false],
               {| items := [hammer]; seq := 2 |}) ∧
  ∀ r, r ∈ [hammer] → date_added r ≤ last_modified r.
Proof.
  intros calls hammer.
  assert (StronglySorted Z.le (calls ≫= readings)) as Hclock.
  { change (calls ≫= readings) with [100; 100; 250]. repeat constructor; lia. }
  split; [reflexivity|]. split; [done|]. split; [reflexivity|].
  by apply (last_modified_after_date_added calls
              [VId 1; VId 2; VBool true; VBool true; VBool false]
              {| items := [hammer]; seq := 2 |}).
Defined.

(** C5 as stated fails: a row added at one clock reading and updated at
    an earlier one (the naive local clock set back) has [last_modified]
    below [date_added]. *)
Lemma last_modified_clock_set_back :
  let calls := [Add 100 "Hammer" (Some "Claw hammer") (Some "Shelf A") 3;
                Update 40 1 quantity_5] in
  let hammer := {| item_id := 1; name := "Hammer"; description := Some "Claw hammer";
                   location := Some "Shelf A"; quantity := 5;
                   date_added := 100; last_modified := 40 |} in
  run (create_tables None) calls
    = Returns ([VId 1; VBool true], {| items := [hammer]; seq := 1 |}) ∧
  hammer ∈ [hammer] ∧
  ¬ (date_added hammer ≤ last_modified hammer).
Proof.
  intros calls hammer. split; [reflexivity|]. split; [left|]. simpl. lia.
Qed.

End Clock.

(** ** Text: white space and words *)

Section Words.

#[local] Arguments String.append !_ _ / : simpl nomatch.

Lemma append_nil_r (s : string) : s +:+ "" = s.
Proof. induction s as [|c s IH]; simpl; by f_equal. Qed.

Lemma append_assoc (s1 s2 s3 : string) : (s1 +:+ s2) +:+ s3 = s1 +:+ s2 +:+ s3.
Proof. induction s1 as [|c s1 IH]; simpl; by f_equal. Qed.

Lemma length_append (s1 s2 : string) :
  String.length (s1 +:+ s2) = (String.length s1 + String.length s2)%nat.
Proof. induction s1 as [|c s1 IH]; simpl; by f_equal. Qed.

Lemma every_append (p : ascii → bool) (s1 s2 : string) :
  every p (s1 +:+ s2) = every p s1 && every p s2.
Proof.
  induction s1 as [|c s1 IH]; simpl; [done|]. rewrite IH. by destruct (p c).
Qed.

Lemma every_impl (p q : ascii → bool) (s : string) :
  (∀ c, p c = true → q c = true) → every p s = true → every q s = true.
Proof.
  intros Hpq. induction s as [|c s IH]; simpl; [done|].
  intros [Hc Hs]%andb_true_iff. rewrite (Hpq c Hc). by apply IH.
Qed.

(** [skip] cuts the longest prefix on which [p] holds. *)
Lemma skip_prefix (p : ascii → bool) (s : string) :
  ∃ w, s = w +:+ Py.skip p s ∧ every p w = true.
Proof.
  induction s as [|c s (w & Hw & Hall)]; simpl; [by exists ""|].
  destruct (p c) eqn:Hc; [|by exists ""].
  exists (String c w). simpl. rewrite Hc, Hall. split; [by f_equal|done].
Qed.

Lemma skip_stops (p : ascii → bool) (s : string) (c : ascii) (s' : string) :
  Py.skip p s = String c s' → p c = false.
Proof.
  induction s as [|a s IH]; simpl; [done|].
  destruct (p a) eqn:Ha; [done|]. by intros [= <- _].
Qed.

Lemma skip_every (p : ascii → bool) (s : string) :
  Py.skip p s = "" ↔ every p s = true.
Proof.
  induction s as [|c s IH]; simpl; [done|].
  destruct (p c); simpl; [done|]. split; done.
Qed.

Lemma skip_append (p : ascii → bool) (w s : string) :
  every p w = true → Py.skip p (w +:+ s) = Py.skip p s.
Proof.
  induction w as [|c w IH]; simpl; [done|].
  intros [-> Hw]%andb_true_iff. by apply IH.
Qed.

Lemma skip_fixed (p : ascii → bool) (s : string) :
  Py.skip p (Py.skip p s) = Py.skip p s.
Proof.
  induction s as [|c s IH]; simpl; [done|].
  destruct (p c) eqn:Hc; [done|]. simpl. by rewrite Hc.
Qed.

Lemma skip_length (p : ascii → bool) (s : string) :
  (String.length (Py.skip p s) ≤ String.length s)%nat.
Proof.
  induction s as [|c s IH]; simpl; [done|]. destruct (p c); simpl; lia.
Qed.

Lemma token_split (s : string) :
  s = (Py.token s).1 +:+ (Py.token s).2 ∧
  word (Py.token s).1 = true ∧ at_gap (Py.token s).2 = true.
Proof.
  unfold word. induction s as [|c s (Happ & Hword & Hgap)]; simpl; [done|].
  destruct (Py.isspace c) eqn:Hc; simpl; [by rewrite Hc|].
  destruct (Py.token s) as [t r]. simpl in *.
  rewrite Hc. simpl. split; [by f_equal|done].
Qed.

Lemma token_append (t r : string) :
  word t = true → at_gap r = true → Py.token (t +:+ r) = (t, r).
Proof.
  unfold word. intros Ht Hr. induction t as [|c t IH]; simpl in *.
  - destruct r as [|c r]; simpl in *; [done|]. by rewrite Hr.
  - apply andb_true_iff in Ht as [Hc Ht]. apply negb_true_iff in Hc.
    rewrite Hc, IH by done. done.
Qed.

Lemma token_length (c : ascii) (s : string) :
  Py.isspace c = false →
  (String.length (Py.token (String c s)).2 ≤ String.length s)%nat ∧
  (Py.token (String c s)).1 ≠ "".
Proof.
  intros Hc. simpl. rewrite Hc.
  destruct (token_split s) as (Happ & _). destruct (Py.token s) as [t r]. simpl in *.
  split; [|done]. apply (f_equal String.length) in Happ.
  rewrite length_append in Happ. lia.
Qed.

Lemma split_unfold (n : nat) (s : string) :
  Py.split n s =
    match Py.lstrip s with
    | EmptyString => []
    | String _ _ as s1 =>
        match n with
        | O => [s1]
        | S n' => (Py.token s1).1 :: Py.split n' (Py.token s1).2
        end
    end.
Proof.
  destruct n; simpl; [done|].
  destruct (Py.lstrip s) as [|c s1]; [done|].
  destruct (Py.isspace c); [done|]. by destruct (Py.token s1).
Qed.

(** Beyond the length of the line the bound on the cuts plays no part. *)
Lemma split_unbounded (n m : nat) (s : string) :
  (String.length s ≤ n)%nat → (String.length s ≤ m)%nat →
  Py.split n s = Py.split m s.
Proof.
  revert m s. induction n as [|n IH]; intros m s Hn Hm.
  - destruct s; simpl in Hn; [|lia]. by destruct m.
  - rewrite (split_unfold (S n)), (split_unfold m).
    pose proof (skip_length Py.isspace s) as Hlen. fold Py.lstrip in Hlen.
    destruct (Py.lstrip s) as [|c s1] eqn:Hs1; [done|].
    apply skip_stops in Hs1.
    destruct (token_length c s1 Hs1) as [Hr _]. simpl in Hlen.
    destruct m as [|m]; [lia|]. f_equal. apply IH; lia.
Qed.

Lemma split_lstrip (n : nat) (s : string) : Py.split n (Py.lstrip s) = Py.split n s.
Proof. rewrite !split_unfold. unfold Py.lstrip. by rewrite skip_fixed. Qed.

Lemma split_all_lstrip (s : string) : Py.split_all (Py.lstrip s) = Py.split_all s.
Proof.
  unfold Py.split_all. rewrite <- (split_lstrip (String.length s)).
  apply split_unbounded; [done|]. apply skip_length.
Qed.

Lemma split_blank (n : nat) (s : string) :
  Py.split n s = [] ↔ every Py.isspace s = true.
Proof.
  rewrite split_unfold, <- skip_every. fold Py.lstrip.
  destruct (Py.lstrip s); [done|]. by destruct n.
Qed.

(** A line that begins, after white space, with a word. *)
Lemma split_all_word (w t r : string) :
  every Py.isspace w = true → t ≠ "" → word t = true → at_gap r = true →
  Py.split_all (w +:+ t +:+ r) = t :: Py.split_all r ∧
  ∀ n, Py.split (S n) (w +:+ t +:+ r) = t :: Py.split n r.
Proof.
  intros Hw Ht Hword Hgap.
  assert (Py.lstrip (w +:+ t +:+ r) = t +:+ r) as Hstrip.
  { unfold Py.lstrip. rewrite skip_append by done.
    destruct t as [|c t]; [done|]. unfold word in Hword. simpl in *.
    apply andb_true_iff in Hword as [Hc _]. apply negb_true_iff in Hc. by rewrite Hc. }
  assert (∀ n, Py.split (S n) (w +:+ t +:+ r) = t :: Py.split n r) as Hsplit.
  { intros n. rewrite split_unfold, Hstrip.
    destruct t as [|c t]; [done|]. change (String c t +:+ r) with (String c (t +:+ r)).
    cbv beta iota. change (String c (t +:+ r)) with (String c t +:+ r).
    cbv zeta. by rewrite token_append. }
  split; [|done]. unfold Py.split_all.
  assert (∃ k, String.length (w +:+ t +:+ r) = S k ∧ String.length r ≤ k)%nat
    as (k & -> & Hk).
  { rewrite !length_append. destruct t as [|c t]; [done|]. simpl.
    eexists. split; [by rewrite Nat.add_succ_r|lia]. }
  rewrite Hsplit. f_equal. apply split_unbounded; lia.
Qed.

(** Conversely, a line with a first word is white space, that word, and
    the text the other words come from. *)
Lemma split_all_first (s t : string) (ts : list string) :
  Py.split_all s = t :: ts →
  ∃ w r, s = w +:+ t +:+ r ∧ every Py.isspace w = true ∧ t ≠ "" ∧
         word t = true ∧ at_gap r = true ∧ Py.split_all r = ts.
Proof.
  intros Hs. destruct (skip_prefix Py.isspace s) as (w & Hw & Hblank).
  fold Py.lstrip in Hw.
  destruct (Py.lstrip s) as [|c s1] eqn:Hs1.
  { unfold Py.split_all in Hs. rewrite split_unfold, Hs1 in Hs. done. }
  pose proof (skip_stops _ _ _ _ Hs1) as Hc.
  destruct (token_split (String c s1)) as (Happ & Hword & Hgap).
  destruct (token_length c s1 Hc) as [_ Hne].
  destruct (Py.token (String c s1)) as [t' r]. simpl in *.
  exists w, r.
  destruct (split_all_word w t' r Hblank Hne Hword Hgap) as [Hall _].
  rewrite <- Happ, <- Hw, Hs in Hall. injection Hall as -> ->.
  by rewrite <- Happ.
Qed.

End Words.

(** ** Text: cutting a line after [n] words *)

Section Cut.

#[local] Arguments String.append !_ _ / : simpl nomatch.

Lemma split_all_blank (w : string) :
  every Py.isspace w = true → Py.split_all w = [].
Proof. intros Hw. by apply split_blank. Qed.

Lemma lstrip_word (s : string) (t : string) (ts : list string) :
  Py.lstrip s = s → Py.split_all s = t :: ts → at_gap s = false.
Proof.
  intros Hfix Hs. destruct s as [|c s]; [done|]. simpl.
  unfold Py.lstrip in Hfix. simpl in Hfix.
  destruct (Py.isspace c) eqn:Hc; [|done].
  pose proof (skip_length Py.isspace s) as Hlen. rewrite Hfix in Hlen.
  simpl in Hlen. lia.
Qed.

(** The line is cut after its first [n] words: [split n] returns these
    words and then the rest of the line from the next word on. *)
Lemma split_cut (n : nat) (s : string) (ts : list string) :
  Py.split_all s = ts → (n < length ts)%nat →
  ∃ before rest,
    s = before +:+ rest ∧
    Py.split_all before = take n ts ∧
    Py.split_all rest = drop n ts ∧
    Py.lstrip rest = rest ∧
    Py.split n s = take n ts ++ [rest].
Proof.
  revert s ts. induction n as [|n IH]; intros s ts Hs Hn.
  - destruct (skip_prefix Py.isspace s) as (w & Hw & Hblank). fold Py.lstrip in Hw.
    exists w, (Py.lstrip s).
    split; [done|]. split; [by apply split_all_blank|].
    split; [by rewrite split_all_lstrip|].
    split; [apply skip_fixed|].
    rewrite split_unfold. destruct (Py.lstrip s) eqn:Hstrip; [|done].
    unfold Py.split_all in Hs. rewrite split_unfold, Hstrip in Hs.
    subst ts. simpl in Hn. lia.
  - destruct ts as [|t ts]; simpl in Hn; [lia|].
    destruct (split_all_first s t ts Hs) as (w & r & -> & Hw & Hne & Hword & Hgap & Hr).
    destruct (IH r ts Hr) as (before & rest & -> & Hbefore & Hrest & Hfix & Hsplit); [lia|].
    exists (w +:+ t +:+ before), rest.
    assert (at_gap before = true) as Hgap'.
    { destruct before as [|c before]; [|done]. simpl in Hgap.
      destruct (drop n ts) as [|t' ts'] eqn:Hdrop.
      - apply (f_equal length) in Hdrop. rewrite length_drop in Hdrop. simpl in Hdrop. lia.
      - by rewrite (lstrip_word rest t' ts') in Hgap. }
    split; [by rewrite !append_assoc|].
    destruct (split_all_word w t before Hw Hne Hword Hgap') as [-> _].
    destruct (split_all_word w t (before +:+ rest) Hw Hne Hword Hgap) as [_ ->].
    simpl. by rewrite Hbefore, Hsplit.
Qed.

End Cut.

(** ** Text: [int] reads one word *)

Section Numbers.

#[local] Arguments String.append !_ _ / : simpl nomatch.

Lemma int_space_isspace (c : ascii) : Py.int_space c = true → Py.isspace c = true.
Proof.
  unfold Py.int_space, Py.isspace. generalize (Py.code c). intros n.
  rewrite !orb_true_iff, !andb_true_iff, !N.leb_le, !N.eqb_eq. lia.
Qed.

Lemma digit_not_space (c : ascii) (d : Z) : Py.digit c = Some d → Py.isspace c = false.
Proof.
  unfold Py.digit, Py.isspace. generalize (Py.code c). intros n.
  destruct (_ && _)%bool eqn:Hd; [|done]. intros _.
  apply andb_true_iff in Hd as [Hlo Hhi]. apply N.leb_le in Hlo, Hhi.
  apply not_true_is_false.
  rewrite !orb_true_iff, !andb_true_iff, !N.leb_le, !N.eqb_eq. lia.
Qed.

Lemma scan_body (prev : bool) (k : nat) (acc : Z) (s : string)
    (v : Z) (k' : nat) (rest : string) :
  Py.scan prev k acc s = Some (v, k', rest) →
  ∃ body, s = body +:+ rest ∧ word body = true.
Proof.
  revert prev k acc. induction s as [|c s IH]; intros prev k acc; simpl.
  - destruct prev; [done|]. intros [= <- <- <-]. by exists "".
  - destruct (Py.digit c) as [d|] eqn:Hd.
    + intros (body & -> & Hbody)%IH. exists (String c body).
      split; [done|]. unfold word in *. simpl.
      by rewrite (digit_not_space c d Hd), Hbody.
    + destruct (Ascii.eqb_spec c "_") as [->|_].
      * destruct prev; [done|].
        intros (body & -> & Hbody)%IH. by exists (String "_" body).
      * destruct prev; [done|]. intros [= <- <- <-]. by exists "".
Qed.

Lemma digits_word (negative : bool) (s : string) (n : Z) :
  Py.digits negative s = Some n →
  ∃ body w2, s = body +:+ w2 ∧ word body = true ∧ every Py.isspace w2 = true.
Proof.
  unfold Py.digits. destruct s as [|c s]; [done|].
  destruct (Ascii.eqb c "_"); [done|].
  destruct (Py.scan false 0 0 (String c s)) as [[[v k] rest]|] eqn:Hscan; [|done].
  apply scan_body in Hscan as (body & Hbody & Hword).
  destruct (k =? 0)%nat; [done|]. destruct (Py.max_str_digits <? k)%nat; [done|].
  destruct (Py.skip Py.int_space rest) eqn:Hrest; [|done]. intros _.
  apply skip_every in Hrest. exists body, rest.
  split; [done|]. split; [done|].
  by eapply every_impl, Hrest; apply int_space_isspace.
Qed.

(** A text [int] accepts is one word between runs of white space. *)
Lemma int_one_word (s : string) (n : Z) :
  Py.int s = Some n →
  ∃ w1 core w2, s = w1 +:+ core +:+ w2 ∧ every Py.isspace w1 = true ∧
                word core = true ∧ every Py.isspace w2 = true.
Proof.
  unfold Py.int. destruct (skip_prefix Py.int_space s) as (w1 & Hs & Hw1).
  apply (every_impl _ Py.isspace _ int_space_isspace) in Hw1.
  destruct (Py.skip Py.int_space s) as [|c r] eqn:Hs1; [done|].
  destruct (Ascii.eqb_spec c "+") as [->|_];
    [|destruct (Ascii.eqb_spec c "-") as [->|_]].
  - intros (body & w2 & -> & Hbody & Hw2)%digits_word.
    exists w1, (String "+" body), w2. by rewrite Hs.
  - intros (body & w2 & -> & Hbody & Hw2)%digits_word.
    exists w1, (String "-" body), w2. by rewrite Hs.
  - intros (body & w2 & Hcr & Hbody & Hw2)%digits_word.
    exists w1, body, w2. by rewrite Hs, Hcr.
Qed.

Lemma one_word_split (w1 core w2 : string) :
  every Py.isspace w1 = true → word core = true → every Py.isspace w2 = true →
  (length (Py.split_all (w1 +:+ core +:+ w2)) ≤ 1)%nat.
Proof.
  intros Hw1 Hcore Hw2. destruct core as [|c core].
  - simpl. rewrite split_all_blank; [simpl; lia|].
    by rewrite every_append, Hw1, Hw2.
  - destruct (split_all_word w1 (String c core) w2) as [-> _]; [done..| |].
    + by destruct w2 as [|c2 w2]; [|simpl in *; apply andb_true_iff in Hw2 as [-> _]].
    + rewrite split_all_blank by done. simpl. lia.
Qed.

(** [int] raises [ValueError] on a text of two words or more. *)
Lemma int_two_words (s t t' : string) (ts : list string) :
  Py.split_all s = t :: t' :: ts → Py.int s = None.
Proof.
  intros Hs. destruct (Py.int s) as [n|] eqn:Hint; [|done].
  apply int_one_word in Hint as (w1 & core & w2 & -> & Hw1 & Hcore & Hw2).
  pose proof (one_word_split w1 core w2 Hw1 Hcore Hw2) as Hlen.
  rewrite Hs in Hlen. simpl in Hlen. lia.
Qed.

End Numbers.

(** ** The [add] command *)

Section DoAdd.

Lemma do_add_blank (st : Store) (now : Z) (arg : string) :
  every Py.isspace arg = true →
  do_add st now arg = Returns (["Error: Item name is required"], st).
Proof. intros Hblank%(split_blank 3). unfold do_add. by rewrite Hblank. Qed.

Lemma do_add_words (st : Store) (now : Z) (arg n : string) (rest : list string) :
  Py.split 3 arg = n :: rest →
  SQL.fits (quantity_of (rest !! 2%nat)) = true →
  high_water st < SQL.INT64_MAX →
  do_add st now arg =
    Returns (["Added item with ID: " +:+ pretty (high_water st + 1)],
             added st now n (rest !! 0%nat) (rest !! 1%nat) (quantity_of (rest !! 2%nat))).
Proof.
  intros Hargs Hq Hroom. unfold do_add. rewrite Hargs. simpl.
  assert (add_item st now n (rest !! 0%nat) (rest !! 1%nat) (quantity_of (rest !! 2%nat))
          = Returns (high_water st + 1,
                     added st now n (rest !! 0%nat) (rest !! 1%nat)
                           (quantity_of (rest !! 2%nat)))) as ->.
  { by apply add_item_returns. }
  done.
Qed.

(** A parsed quantity that is no 64-bit integer is not caught. *)
Lemma do_add_overflow (st : Store) (now : Z) (arg n : string) (rest : list string) :
  Py.split 3 arg = n :: rest →
  SQL.fits (quantity_of (rest !! 2%nat)) = false →
  do_add st now arg = Raises OverflowError.
Proof.
  intros Hargs Hq. unfold do_add. rewrite Hargs. simpl.
  unfold add_item, SQL.bind_int. by rewrite Hq.
Qed.

(** A store with the largest rowid used takes no more rows. *)
Lemma do_add_full (st : Store) (now : Z) (arg n : string) (rest : list string) :
  Py.split 3 arg = n :: rest →
  SQL.fits (quantity_of (rest !! 2%nat)) = true →
  SQL.INT64_MAX ≤ high_water st →
  do_add st now arg = Raises OperationalError.
Proof.
  intros Hargs Hq Hfull. unfold do_add. rewrite Hargs. simpl.
  unfold add_item, next_rowid. rewrite bind_int_fits by done. simpl.
  destruct (Z.ltb_spec (high_water st) SQL.INT64_MAX); [lia|done].
Qed.

(** C8, as the code has it: a line without a word (empty, or white space
    only) gets the error message and leaves the store as it was.  Any
    other line has a quantity: 1 when the cut has no fourth element or
    [int] rejects it, the integer [int] reads from it otherwise.  When
    that is a 64-bit integer and a rowid is left, one row is appended
    under the next rowid: its name, description and location are the
    first three elements of the cut, its quantity is that quantity and
    both its stamps are the clock reading; the line printed gives the id.
    A quantity outside 64 bits raises OverflowError, a store without a
    rowid left OperationalError. *)
Theorem do_add_line (st : Store) (now : Z) (arg : string) :
  do_add st now "" = Returns (["Error: Item name is required"], st) ∧
  (every Py.isspace arg = true →
   do_add st now arg = Returns (["Error: Item name is required"], st)) ∧
  (every Py.isspace arg = false →
   ∃ n rest q,
     Py.split 3 arg = n :: rest ∧
     (rest !! 2%nat = None → q = 1) ∧
     (∀ text, rest !! 2%nat = Some text → Py.int text = None → q = 1) ∧
     (∀ text v, rest !! 2%nat = Some text → Py.int text = Some v → q = v) ∧
     (SQL.fits q = false → do_add st now arg = Raises OverflowError) ∧
     (SQL.fits q = true → SQL.INT64_MAX ≤ high_water st →
      do_add st now arg = Raises OperationalError) ∧
     (SQL.fits q = true → high_water st < SQL.INT64_MAX →
      do_add st now arg =
        Returns (["Added item with ID: " +:+ pretty (high_water st + 1)],
                 {| items := items st ++
                      [{| item_id := high_water st + 1; name := n;
                          description := rest !! 0%nat; location := rest !! 1%nat;
                          quantity := q; date_added := now; last_modified := now |}];
                    seq := high_water st + 1 |}))).
Proof.
  split; [by apply do_add_blank|]. split; [apply do_add_blank|].
  intros Hwords. destruct (Py.split 3 arg) as [|n rest] eqn:Hargs.
  { apply split_blank in Hargs. congruence. }
  exists n, rest, (quantity_of (rest !! 2%nat)).
  split; [done|]. split; [by intros ->|].
  split; [intros text -> Hint; simpl; by rewrite Hint|].
  split; [intros text v -> Hint; simpl; by rewrite Hint|].
  split; [by apply (do_add_overflow _ _ _ n rest)|].
  split; [by apply (do_add_full _ _ _ n rest)|].
  by apply do_add_words.
Qed.

Lemma do_add_line_witness :
  let hammer q :=
    {| item_id := 1; name := "Hammer"; description := Some "Claw";
       location := Some "ShelfA"; quantity := q;
       date_added := 100; last_modified := 100 |} in
  do_add empty_store 100 "   " = Returns (["Error: Item name is required"], empty_store) ∧
  do_add empty_store 100 "Hammer Claw ShelfA 3" =
    Returns (["Added item with ID: 1"], {| items := [hammer 3]; seq := 1 |}) ∧
  do_add empty_store 100 "Hammer Claw ShelfA many" =
    Returns (["Added item with ID: 1"], {| items := [hammer 1]; seq := 1 |}) ∧
  do_add {| items := []; seq := SQL.INT64_MAX |} 100 "Hammer Claw ShelfA 3" =
    Raises OperationalError.
Proof.
  intros hammer. split; [|split; [|split]].
  - apply (do_add_line empty_store 100 "   "). reflexivity.
  - destruct (do_add_line empty_store 100 "Hammer Claw ShelfA 3")
      as (_ & _ & n & rest & q & Hargs & _ & _ & Hq & _ & _ & Hadd); [reflexivity|].
    injection Hargs as <- <-. rewrite (Hq "3" 3) in Hadd by reflexivity.
    apply Hadd; reflexivity.
  - destruct (do_add_line empty_store 100 "Hammer Claw ShelfA many")
      as (_ & _ & n & rest & q & Hargs & _ & Hq & _ & _ & _ & Hadd); [reflexivity|].
    injection Hargs as <- <-. rewrite (Hq "many") in Hadd by reflexivity.
    apply Hadd; reflexivity.
  - destruct (do_add_line {| items := []; seq := SQL.INT64_MAX |} 100 "Hammer Claw ShelfA 3")
      as (_ & _ & n & rest & q & Hargs & _ & _ & Hq & _ & Hfull & _); [reflexivity|].
    injection Hargs as <- <-. rewrite (Hq "3" 3) in Hfull by reflexivity.
    apply Hfull; [reflexivity|]. vm_compute. discriminate.
Defined.

(** C8 as stated fails twice: a line of white space is not empty, yet
    nothing is added; and a fourth word that [int] reads as an integer
    beyond 64 bits makes the call raise, nothing being added. *)
Lemma do_add_blank_or_huge :
  (" " ≠ "" ∧
   do_add empty_store 100 " " = Returns (["Error: Item name is required"], empty_store)) ∧
  (Py.split 3 "Nail Steel BinC 9223372036854775808"
     = ["Nail"; "Steel"; "BinC"; "9223372036854775808"] ∧
   Py.int "9223372036854775808" = Some 9223372036854775808 ∧
   do_add empty_store 100 "Nail Steel BinC 9223372036854775808" = Raises OverflowError).
Proof. repeat split; (done || reflexivity). Qed.

(** C10: a line of more than four words is cut after its third word.
    The fourth element of the cut is the rest of the line from the fourth
    word on; it holds white space, [int] rejects it, and the quantity is
    1.  With a rowid left, one row is appended under the next rowid with
    the first three words as name, description and location, with
    quantity 1 and with both stamps the clock reading; with none left the
    call raises and nothing is stored. *)
Theorem do_add_long_line (st : Store) (now : Z) (arg : string)
    (t0 t1 t2 t3 t4 : string) (more : list string) :
  Py.split_all arg = t0 :: t1 :: t2 :: t3 :: t4 :: more →
  ∃ before rest,
    arg = before +:+ rest ∧
    Py.split_all before = [t0; t1; t2] ∧
    Py.split_all rest = t3 :: t4 :: more ∧
    Py.split 3 arg = [t0; t1; t2; rest] ∧
    word rest = false ∧
    Py.int rest = None ∧
    quantity_of (Some rest) = 1 ∧
    (high_water st < SQL.INT64_MAX →
     do_add st now arg =
       Returns (["Added item with ID: " +:+ pretty (high_water st + 1)],
                {| items := items st ++
                     [{| item_id := high_water st + 1; name := t0;
                         description := Some t1; location := Some t2;
                         quantity := 1; date_added := now; last_modified := now |}];
                   seq := high_water st + 1 |})) ∧
    (SQL.INT64_MAX ≤ high_water st → do_add st now arg = Raises OperationalError).
Proof.
  intros Hwords.
  destruct (split_cut 3 arg _ Hwords) as (before & rest & Hcut & Hbefore & Hrest & _ & Hsplit);
    [simpl; lia|].
  simpl in Hbefore, Hrest, Hsplit.
  assert (Py.int rest = None) as Hint by (by eapply int_two_words).
  assert (quantity_of (Some rest) = 1) as Hone by (simpl; by rewrite Hint).
  exists before, rest. repeat split; try done.
  - apply not_true_is_false. intros Hword.
    pose proof (one_word_split "" rest "" eq_refl Hword eq_refl) as Hlen.
    change ("" +:+ rest +:+ "") with (rest +:+ "") in Hlen.
    rewrite append_nil_r, Hrest in Hlen. simpl in Hlen. lia.
  - intros Hroom.
    rewrite (do_add_words st now arg t0 [t1; t2; rest]); [|done| |done].
    + simpl. by rewrite Hint.
    + simpl. by rewrite Hint.
  - intros Hfull. apply (do_add_full st now arg t0 [t1; t2; rest]); [done| |done].
    simpl. by rewrite Hint.
Qed.

Lemma do_add_long_line_witness :
  let arg := "Hammer Claw ShelfA 3 pieces" in
  Py.split_all arg = ["Hammer"; "Claw"; "ShelfA"; "3"; "pieces"] ∧
  Py.split 3 arg = ["Hammer"; "Claw"; "ShelfA"; "3 pieces"] ∧
  Py.int "3 pieces" = None ∧
  do_add empty_store 100 arg =
    Returns (["Added item with ID: 1"],
             {| items := [{| item_id := 1; name := "Hammer";
                             description := Some "Claw"; location := Some "ShelfA";
                             quantity := 1; date_added := 100; last_modified := 100 |}];
                seq := 1 |}).
Proof.
  intros arg. split; [reflexivity|].
  destruct (do_add_long_line empty_store 100 arg "Hammer" "Claw" "ShelfA" "3" "pieces" [])
    as (before & rest & _ & _ & _ & Hsplit & _ & Hint & _ & Hadd & _); [reflexivity|].
  assert (rest = "3 pieces") as -> by (vm_compute in Hsplit; congruence).
  split; [done|]. split; [done|]. apply Hadd. reflexivity.
Defined.

End DoAdd.

(** ** LIKE *)

Section Like.

#[local] Arguments String.append !_ _ / : simpl nomatch.

Lemma like_percent (p s : string) :
  SQL.like_from (String "%" p) s =
    SQL.like_from p s ||
    match s with
    | String _ s' => SQL.like_from (String "%" p) s'
    | EmptyString => false
    end.
Proof. by destruct s. Qed.

Lemma like_literal (c : ascii) (p s : string) :
  Ascii.eqb c "%" = false → Ascii.eqb c "_" = false →
  SQL.like_from (String c p) s =
    match s with
    | String d s' => Ascii.eqb (SQL.lower c) (SQL.lower d) && SQL.like_from p s'
    | EmptyString => false
    end.
Proof. intros Hpercent Hunderscore. simpl. by rewrite Hpercent, Hunderscore. Qed.

Lemma like_any (s : string) : SQL.like_from "%" s = true.
Proof.
  induction s as [|c s IH]; [done|]. rewrite like_percent, IH. apply orb_true_r.
Qed.

(** A pattern matches itself, wildcards and all. *)
Lemma like_prefix (t s : string) :
  Py.startswith t s = true → SQL.like_from (t +:+ "%") s = true.
Proof.
  revert s. induction t as [|a t IH]; intros s; [intros _; apply like_any|].
  destruct s as [|b s]; [done|]. simpl Py.startswith.
  intros [->%Ascii.eqb_eq Hts%IH]%andb_true_iff.
  change (String b t +:+ "%") with (String b (t +:+ "%")).
  destruct (Ascii.eqb b "%") eqn:Hpercent.
  - apply Ascii.eqb_eq in Hpercent as ->.
    rewrite like_percent. apply orb_true_iff. right.
    rewrite like_percent, Hts. done.
  - destruct (Ascii.eqb b "_") eqn:Hunderscore.
    + apply Ascii.eqb_eq in Hunderscore as ->. done.
    + rewrite like_literal by done. by rewrite Ascii.eqb_refl.
Qed.

Lemma like_contains (t s : string) :
  Py.contains t s = true → SQL.like_from ("%" +:+ t +:+ "%") s = true.
Proof.
  change ("%" +:+ t +:+ "%") with (String "%" (t +:+ "%")).
  induction s as [|c s IH]; simpl Py.contains; rewrite like_percent.
  - rewrite orb_false_r. intros Hts%like_prefix. by rewrite Hts.
  - intros [Hts%like_prefix|Hs%IH]%orb_true_iff.
    + by rewrite Hts.
    + rewrite Hs. apply orb_true_r.
Qed.

(** For a plain term LIKE is containment up to ASCII case. *)
Lemma like_prefix_plain (t s : string) :
  plain t = true →
  SQL.like_from (t +:+ "%") s = Py.startswith (SQL.lower_all t) (SQL.lower_all s).
Proof.
  unfold plain. revert s. induction t as [|a t IH]; intros s.
  - intros _. change ("" +:+ "%") with "%". rewrite like_any. by destruct s.
  - cbn [every].
    intros [[[Hp Hu]%andb_true_iff _]%andb_true_iff Ht]%andb_true_iff.
    apply negb_true_iff in Hp, Hu.
    change (String a t +:+ "%") with (String a (t +:+ "%")).
    rewrite like_literal by done.
    destruct s as [|b s]; [done|]. cbn [SQL.lower_all Py.startswith].
    by rewrite IH.
Qed.

Lemma like_contains_plain (t s : string) :
  plain t = true →
  SQL.like_from ("%" +:+ t +:+ "%") s = Py.contains (SQL.lower_all t) (SQL.lower_all s).
Proof.
  intros Ht. change ("%" +:+ t +:+ "%") with (String "%" (t +:+ "%")).
  induction s as [|c s IH]; rewrite like_percent, like_prefix_plain by done;
    cbn [SQL.lower_all Py.contains].
  - done.
  - by rewrite IH.
Qed.

Lemma c_str_nul_free (s : string) : nul_free s = true → SQL.c_str s = s.
Proof.
  unfold nul_free, is_nul. induction s as [|c s IH]; simpl; [done|].
  intros [Hc Hs]%andb_true_iff. apply negb_true_iff in Hc. rewrite Hc. by f_equal; apply IH.
Qed.

Lemma startswith_every (p : ascii → bool) (t s : string) :
  Py.startswith t s = true → every p s = true → every p t = true.
Proof.
  revert s. induction t as [|a t IH]; intros s; [done|].
  destruct s as [|b s]; simpl; [done|].
  intros [->%Ascii.eqb_eq Hts]%andb_true_iff [-> Hs]%andb_true_iff. by eapply IH.
Qed.

Lemma contains_every (p : ascii → bool) (t s : string) :
  Py.contains t s = true → every p s = true → every p t = true.
Proof.
  induction s as [|c s IH]; simpl.
  - rewrite orb_false_r. intros Hts _. by eapply startswith_every.
  - intros [Hts|Hs]%orb_true_iff Hall; [by eapply startswith_every|].
    apply andb_true_iff in Hall as [_ Hall]. by apply IH.
Qed.

Lemma pattern_nul_free (t : string) :
  nul_free t = true → nul_free ("%" +:+ t +:+ "%") = true.
Proof. unfold nul_free. intros Ht. simpl. by rewrite every_append, Ht. Qed.

Lemma plain_nul_free (t : string) : plain t = true → nul_free t = true.
Proof.
  apply every_impl. intros c [_ Hc]%andb_true_iff. done.
Qed.

Lemma c_str_clean (s : string) : nul_free (SQL.c_str s) = true.
Proof.
  unfold nul_free, is_nul. induction s as [|c s IH]; simpl; [done|].
  destruct (Ascii.eqb c "000") eqn:Hc; simpl; [done|]. by rewrite Hc.
Qed.

(** A text that contains the term before its first NUL matches the
    pattern. *)
Lemma like_holds (term text : string) :
  Py.contains term (SQL.c_str text) = true →
  SQL.like ("%" +:+ term +:+ "%") text = true.
Proof.
  intros Hin. unfold SQL.like.
  rewrite c_str_nul_free by (eapply pattern_nul_free, contains_every, c_str_clean; done).
  by apply like_contains.
Qed.

Lemma like_plain (term text : string) :
  plain term = true →
  SQL.like ("%" +:+ term +:+ "%") text
  = Py.contains (SQL.lower_all term) (SQL.lower_all (SQL.c_str text)).
Proof.
  intros Hterm. unfold SQL.like.
  rewrite c_str_nul_free by by apply pattern_nul_free, plain_nul_free.
  by apply like_contains_plain.
Qed.

Lemma bytes_nonneg (s : string) : 0 ≤ SQL.bytes s.
Proof.
  induction s as [|c s IH]; simpl; [done|]. destruct (Py.code c <? 128)%N; lia.
Qed.

Lemma bytes_append (s1 s2 : string) : SQL.bytes (s1 +:+ s2) = SQL.bytes s1 + SQL.bytes s2.
Proof. induction s1 as [|c s1 IH]; simpl; [done|]. rewrite IH. lia. Qed.

Lemma bytes_pattern (term : string) :
  SQL.bytes ("%" +:+ term +:+ "%") = SQL.bytes term + 2.
Proof.
  change ("%" +:+ term +:+ "%") with (String "%" (term +:+ "%")).
  cbn [SQL.bytes]. rewrite bytes_append. simpl. lia.
Qed.

End Like.

(** ** [search_items] *)

Section Search.

Lemma matching_elem (st : Store) (term : string) (r : Item) :
  r ∈ matching st term ↔
  r ∈ items st ∧
  (SQL.like ("%" +:+ term +:+ "%") (name r) = true ∨
   ∃ d, description r = Some d ∧ SQL.like ("%" +:+ term +:+ "%") d = true).
Proof.
  unfold matching. rewrite list_elem_of_filter, orb_true_iff.
  unfold SQL.like_column. destruct (description r) as [d|].
  - split.
    + intros [[Hname|Hd] Hr]; (split; [done|]); [by left|right; by exists d].
    + intros [Hr [Hname|(d' & [= <-] & Hd)]]; (split; [|done]); [by left|by right].
  - split.
    + intros [[Hname|Hd] Hr]; [|done]. split; [done|by left].
    + intros [Hr [Hname|(d' & [=] & _)]]. split; [by left|done].
Qed.

(** [search_items] raises exactly on a pattern of more than 50000 bytes
    met by a table that has a row. *)
Lemma search_items_raises (st : Store) (term : string) :
  items st ≠ [] → SQL.LIKE_PATTERN_LENGTH < SQL.bytes term + 2 →
  search_items st term = Raises OperationalError.
Proof.
  intros Hrows Hlong. unfold search_items. rewrite bytes_pattern.
  destruct (items st); [done|].
  by destruct (Z.ltb_spec SQL.LIKE_PATTERN_LENGTH (SQL.bytes term + 2)); [|lia].
Qed.

Lemma search_items_matching (st : Store) (term : string) :
  items st = [] ∨ SQL.bytes term + 2 ≤ SQL.LIKE_PATTERN_LENGTH →
  search_items st term = Returns (matching st term).
Proof.
  intros Hok. unfold search_items, matching. rewrite bytes_pattern.
  destruct (items st) as [|r rows] eqn:Hrows; [done|].
  destruct Hok as [|Hshort]; [done|].
  by destruct (Z.ltb_spec SQL.LIKE_PATTERN_LENGTH (SQL.bytes term + 2)); [lia|].
Qed.

Lemma search_items_returns (st : Store) (term : string) (rows : list Item) :
  search_items st term = Returns rows ↔
  (items st = [] ∨ SQL.bytes term + 2 ≤ SQL.LIKE_PATTERN_LENGTH) ∧
  rows = matching st term.
Proof.
  split.
  - destruct (decide (items st = [])) as [Hnone|Hrows].
    + rewrite search_items_matching by by left. intros [= <-]. split; [by left|done].
    + destruct (Z.le_gt_cases (SQL.bytes term + 2) SQL.LIKE_PATTERN_LENGTH) as [Hshort|Hlong].
      * rewrite search_items_matching by by right. intros [= <-]. split; [by right|done].
      * by rewrite search_items_raises.
  - intros [Hok ->]. by apply search_items_matching.
Qed.

(** C2, as the code has it.  [search_items] raises OperationalError when
    the table has a row and the term is longer than 49998 bytes (the
    pattern longer than 50000); in every other case it returns rows, and
    these are rows of the table.  Name and description being read up to
    their first NUL: every row whose name or description contains the
    term is returned; and for a term without [%], [_] and NUL the rows
    returned are exactly those whose name or description contains the
    term up to the case of ASCII letters. *)
Theorem search_items_spec (st : Store) (term : string) :
  (items st ≠ [] → SQL.LIKE_PATTERN_LENGTH < SQL.bytes term + 2 →
   search_items st term = Raises OperationalError) ∧
  (items st = [] ∨ SQL.bytes term + 2 ≤ SQL.LIKE_PATTERN_LENGTH →
   ∃ rows,
     search_items st term = Returns rows ∧
     ∀ r,
       (r ∈ rows → r ∈ items st) ∧
       (r ∈ items st →
        holds term (SQL.c_str (name r)) (SQL.c_str <$> description r) = true →
        r ∈ rows) ∧
       (plain term = true →
        (r ∈ rows ↔
         r ∈ items st ∧
         holds (SQL.lower_all term) (SQL.lower_all (SQL.c_str (name r)))
               ((λ d, SQL.lower_all (SQL.c_str d)) <$> description r) = true))).
Proof.
  split; [apply search_items_raises|].
  intros Hok. exists (matching st term).
  split; [by apply search_items_matching|].
  intros r. unfold holds.
  split; [by intros [? _]%matching_elem|]. split.
  - intros Hr Hin. apply matching_elem.
    split; [done|]. apply orb_true_iff in Hin as [Hin|Hin].
    + left. by apply like_holds.
    + right. destruct (description r) as [d|]; [|done]. simpl in *.
      exists d. split; [done|]. by apply like_holds.
  - intros Hterm.
    rewrite matching_elem, orb_true_iff, like_plain by done.
    assert ((∃ d, description r = Some d ∧
                  SQL.like ("%" +:+ term +:+ "%") d = true) ↔
            from_option (Py.contains (SQL.lower_all term)) false
                        ((λ d, SQL.lower_all (SQL.c_str d)) <$> description r) = true)
      as ->; [|done].
    destruct (description r) as [d|]; simpl in *.
    + rewrite <- (like_plain term d) by done. split; [by intros (d' & [= <-] & ?)|eauto].
    + split; [by intros (d' & [=] & _)|done].
Qed.

Lemma search_items_spec_witness :
  let hammer := new_row 1 100 "Hammer" (Some "Claw hammer") (Some "Shelf A") 3 in
  let nails := new_row 2 101 "Nails" None None 40 in
  let st := {| items := [hammer; nails]; seq := 2 |} in
  let long := Py.times (Z.to_nat 49999) "a" in
  search_items st long = Raises OperationalError ∧
  search_items empty_store long = Returns [] ∧
  (∃ rows, search_items st "law h" = Returns rows ∧ hammer ∈ rows) ∧
  (∃ rows, search_items st "nAiL" = Returns rows ∧
           (nails ∈ rows ↔ nails ∈ items st ∧ holds "nail" "nails" None = true)).
Proof.
  intros hammer nails st long. split; [|split; [|split]].
  - apply (search_items_spec st long); [done|]. vm_compute. reflexivity.
  - destruct (search_items_spec empty_store long) as (_ & rows & Hreturns & Hrows);
      [by left|].
    rewrite Hreturns. f_equal. destruct rows as [|r rows]; [done|].
    destruct (Hrows r) as (Hin & _). exfalso. apply (not_elem_of_nil r), Hin. left.
  - destruct (search_items_spec st "law h") as (_ & rows & Hreturns & Hrows).
    { right. vm_compute. discriminate. }
    exists rows. split; [done|]. destruct (Hrows hammer) as (_ & Hfound & _).
    apply Hfound; [left|reflexivity].
  - destruct (search_items_spec st "nAiL") as (_ & rows & Hreturns & Hrows).
    { right. vm_compute. discriminate. }
    exists rows. split; [done|]. destruct (Hrows nails) as (_ & _ & Hexact).
    apply Hexact; reflexivity.
Defined.

(** C2 as stated fails: LIKE folds ASCII case and reads [_] and [%] in the
    term as wildcards, so rows are returned whose name and description do
    not contain the term. *)
Lemma search_items_folds_case :
  let hammer := new_row 1 100 "Hammer" (Some "Claw hammer") (Some "Shelf A") 3 in
  let st := {| items := [hammer]; seq := 1 |} in
  (search_items st "claw" = Returns [hammer] ∧
   holds "claw" (name hammer) (description hammer) = false) ∧
  (search_items st "m_e" = Returns [hammer] ∧
   holds "m_e" (name hammer) (description hammer) = false).
Proof. intros hammer st. split; (split; reflexivity). Qed.

End Search.

(** ** The primary key *)

Section Key.

Lemma run_preserves (I : Store → Prop) :
  (∀ st c v st1, I st → exec st c = Returns (v, st1) → I st1) →
  ∀ calls st vs st', I st → run st calls = Returns (vs, st') → I st'.
Proof.
  intros Hexec calls. induction calls as [|c calls IH]; intros st vs st' Hst; simpl.
  - by intros [= _ <-].
  - destruct (exec st c) as [[v st1]| |] eqn:Hc; simpl; [|done..].
    destruct (run st1 calls) as [[vs1 st2]| |] eqn:Hrun; simpl; [|done..].
    intros [= _ <-]. eapply IH; [|done]. by eapply Hexec.
Qed.

Lemma update_rows_ids (a : assignment) (now id : Z) (rows : list Item) :
  item_id <$> update_rows a now id rows = item_id <$> rows.
Proof.
  unfold update_rows. rewrite <- list_fmap_compose.
  apply list_fmap_ext. intros _ r _. simpl. by destruct (decide (item_id r = id)).
Qed.

Lemma sorted_select {A} (P : A → Prop) `{!∀ x, Decision (P x)}
    (f : A → Z) (l : list A) :
  StronglySorted Z.lt (f <$> l) → StronglySorted Z.lt (f <$> filter P l).
Proof.
  induction l as [|x l IH]; [done|]. rewrite fmap_cons.
  intros [Hl Hx]%StronglySorted_inv. destruct (decide (P x)).
  - rewrite filter_cons_True, fmap_cons by done. constructor; [by apply IH|].
    apply Forall_fmap, Forall_forall. intros y [_ Hy]%list_elem_of_filter.
    rewrite Forall_fmap, Forall_forall in Hx. by apply Hx.
  - rewrite filter_cons_False by done. by apply IH.
Qed.

Lemma keyed_counted (st : Store) : keyed st → counted st.
Proof.
  intros (_ & Hids & Hseq). unfold counted, max_rowid.
  induction Hids as [|r rows Hr _ IH]; [simpl; lia|].
  rewrite fmap_cons. cbn [foldr]. lia.
Qed.

Lemma keyed_empty : keyed empty_store.
Proof.
  split; [constructor|]. split; [constructor|]. unfold SQL.INT64_MAX. simpl. lia.
Qed.

Lemma exec_keyed (st : Store) (c : call) (v : value) (st1 : Store) :
  keyed st → exec st c = Returns (v, st1) → keyed st1.
Proof.
  intros Hst. pose proof (keyed_counted st Hst) as Hcount.
  destruct Hst as (Hsorted & Hids & Hseq).
  destruct c as [now n d l q|id|now id kwargs|id|term|]; simpl.
  - destruct (add_item st now n d l q) as [[id st']| |] eqn:Hadd; simpl; [|done..].
    intros [= _ <-]. apply add_item_returns in Hadd as (_ & Hroom & -> & ->).
    rewrite counted_high_water in * by done.
    split; [|split]; simpl.
    + rewrite fmap_app. apply StronglySorted_app_2; [|done|repeat constructor].
      intros i j (r & -> & Hr)%list_elem_of_fmap ->%list_elem_of_singleton.
      rewrite Forall_forall in Hids. specialize (Hids r Hr). simpl. lia.
    + apply Forall_app. split; [|repeat constructor; simpl; lia].
      eapply Forall_impl; [done|]. simpl. lia.
    + lia.
  - destruct (get_item st id); simpl; [|done..]. by intros [= _ <-].
  - destruct (update_item st now id kwargs) as [[b st']| |] eqn:Hupd; simpl; [|done..].
    intros [= _ <-]. apply update_item_returns in Hupd
      as [(_ & _ & ->)|(_ & _ & _ & a & _ & ->)]; [done|].
    split; [|split]; simpl; [by rewrite update_rows_ids| |done].
    apply (Forall_fmap item_id (λ i, 0 < i ≤ seq st)).
    rewrite update_rows_ids. by apply Forall_fmap.
  - destruct (delete_item st id) as [[b st']| |] eqn:Hdel; simpl; [|done..].
    intros [= _ <-]. unfold delete_item, SQL.bind_int in Hdel.
    destruct (SQL.fits id); simpl in Hdel; [|done]. injection Hdel as _ <-.
    split; [|split]; simpl; [by apply sorted_select| |done].
    apply Forall_forall. intros r [_ Hr]%list_elem_of_filter.
    rewrite Forall_forall in Hids. by apply Hids.
  - destruct (search_items st term); simpl; [|done..]. by intros [= _ <-].
  - by intros [= _ <-].
Qed.

Lemma run_keyed (calls : list call) (st : Store) (vs : list value) (st' : Store) :
  keyed st → run st calls = Returns (vs, st') → keyed st'.
Proof. apply (run_preserves keyed), exec_keyed. Qed.

(** In a keyed table a row is known by its id. *)
Lemma keyed_unique (st : Store) (r r' : Item) :
  keyed st → r ∈ items st → r' ∈ items st → item_id r = item_id r' → r = r'.
Proof.
  intros (Hsorted & _). induction (items st) as [|x rows IH]; [by intros ?%elem_of_nil|].
  rewrite fmap_cons in Hsorted. apply StronglySorted_inv in Hsorted as [Hrows Hx].
  rewrite Forall_fmap, Forall_forall in Hx.
  intros [->|Hr]%elem_of_cons [->|Hr']%elem_of_cons Hid; [done| | |by apply IH].
  - specialize (Hx r' Hr'). simpl in Hx. lia.
  - specialize (Hx r Hr). simpl in Hx. lia.
Qed.

(** X1: over any run of calls on a store created empty, the ids of the rows
    grow strictly along the table, so no two rows share an id, and every id
    is positive and at most the counter of [sqlite_sequence]. *)
Theorem store_primary_key (calls : list call) (vs : list value) (st' : Store) :
  run (create_tables None) calls = Returns (vs, st') →
  StronglySorted Z.lt (item_id <$> items st') ∧
  NoDup (item_id <$> items st') ∧
  Forall (λ r, 0 < item_id r ≤ seq st') (items st').
Proof.
  intros Hrun. destruct (run_keyed calls empty_store vs st' keyed_empty Hrun)
    as (Hsorted & Hids & _).
  split; [done|]. split; [|done].
  induction Hsorted as [|i ids _ IH Hall]; constructor; [|done].
  intros Hin. rewrite Forall_forall in Hall. specialize (Hall _ Hin). lia.
Qed.

Lemma store_primary_key_witness :
  let calls := [Add 100 "Hammer" (Some "Claw hammer") (Some "Shelf A") 3;
                Add 101 "Nails" None None 40;
                Delete 1;
                Add 102 "Saw" None (Some "Shelf B") 1] in
  let vs := [VId 1; VId 2; VBool true; VId 3] in
  let st' := {| items := [new_row 2 101 "Nails" None None 40;
                          new_row 3 102 "Saw" None (Some "Shelf B") 1];
                seq := 3 |} in
  run (create_tables None) calls = Returns (vs, st') ∧
  StronglySorted Z.lt (item_id <$> items st') ∧
  NoDup (item_id <$> items st') ∧
  Forall (λ r, 0 < item_id r ≤ seq st') (items st').
Proof.
  intros calls vs st'. split; [reflexivity|].
  apply (store_primary_key calls vs st'). reflexivity.
Defined.

(** X2: in such a store [get_item] and [list_items] agree: [get_item]
    returns a row exactly when that row is listed under that id, and
    returns [None] exactly when no listed row has the id. *)
Theorem get_item_listed (calls : list call) (vs : list value) (st : Store)
    (id : Z) (r : Item) :
  run (create_tables None) calls = Returns (vs, st) →
  (get_item st id = Returns (Some r) ↔ r ∈ list_items st ∧ item_id r = id) ∧
  (get_item st id = Returns None ↔
   SQL.fits id = true ∧ ∀ r', r' ∈ list_items st → item_id r' ≠ id).
Proof.
  intros Hrun. pose proof (run_keyed calls empty_store vs st keyed_empty Hrun) as Hkey.
  unfold list_items. rewrite !get_item_returns. split.
  - split.
    + intros [_ Hhead].
      destruct (filter (λ r, item_id r = id) (items st)) as [|r0 rows] eqn:Hf;
        simplify_eq/=.
      assert (r0 ∈ filter (λ r, item_id r = id) (items st)) as Hin by (rewrite Hf; left).
      apply list_elem_of_filter in Hin as [? ?]. done.
    + intros [Hr Hid]. destruct Hkey as (Hsorted & Hids & Hseq).
      split.
      { rewrite Forall_forall in Hids. specialize (Hids r Hr).
        apply fits_spec. unfold SQL.INT64_MIN. lia. }
      assert (r ∈ filter (λ r, item_id r = id) (items st)) as Hin
        by (by apply list_elem_of_filter).
      destruct (filter _ (items st)) as [|r0 rows] eqn:Hf; [by apply elem_of_nil in Hin|].
      simpl. f_equal.
      assert (r0 ∈ filter (λ r, item_id r = id) (items st)) as Hin0 by (rewrite Hf; left).
      apply list_elem_of_filter in Hin0 as [Hid0 Hr0].
      apply (keyed_unique st); [done..|congruence].
  - split.
    + intros [Hfits Hhead]. split; [done|]. intros r' Hr' Hid.
      assert (r' ∈ filter (λ r, item_id r = id) (items st)) as Hin
        by (by apply list_elem_of_filter).
      destruct (filter _ (items st)); [by apply elem_of_nil in Hin|done].
    + intros [Hfits Hnone]. split; [done|].
      rewrite select_none; [done|]. intros r' Hr'. by apply Hnone.
Qed.

Lemma get_item_listed_witness :
  let calls := [Add 100 "Hammer" (Some "Claw hammer") (Some "Shelf A") 3;
                Add 101 "Nails" None None 40;
                Delete 1] in
  let nails := new_row 2 101 "Nails" None None 40 in
  let st := {| items := [nails]; seq := 2 |} in
  run (create_tables None) calls = Returns ([VId 1; VId 2; VBool true], st) ∧
  (get_item st 2 = Returns (Some nails) ↔ nails ∈ list_items st ∧ item_id nails = 2) ∧
  (get_item st 1 = Returns None ↔
   SQL.fits 1 = true ∧ ∀ r', r' ∈ list_items st → item_id r' ≠ 1).
Proof.
  intros calls nails st. split; [reflexivity|]. split.
  - apply (get_item_listed calls [VId 1; VId 2; VBool true] st 2 nails). reflexivity.
  - apply (get_item_listed calls [VId 1; VId 2; VBool true] st 1 nails). reflexivity.
Defined.

End Key.

(** ** More on the storage layer *)

Section Storage.

Lemma exec_seq (st : Store) (c : call) (v : value) (st1 : Store) :
  counted st → exec st c = Returns (v, st1) →
  match v with
  | VId id => id = seq st + 1 ∧ seq st1 = seq st + 1
  | _ => seq st1 = seq st
  end.
Proof.
  intros Hst. destruct c as [now n d l q|id|now id kwargs|id|term|]; simpl.
  - destruct (add_item st now n d l q) as [[id st']| |] eqn:Hadd; simpl; [|done..].
    intros [= <- <-]. apply add_item_returns in Hadd as (_ & _ & -> & ->).
    by rewrite counted_high_water.
  - destruct (get_item st id); simpl; [|done..]. by intros [= <- <-].
  - destruct (update_item st now id kwargs) as [[b st']| |] eqn:Hupd; simpl; [|done..].
    intros [= <- <-]. by apply update_item_returns in Hupd
      as [(_ & _ & ->)|(_ & _ & _ & a & _ & ->)].
  - destruct (delete_item st id) as [[b st']| |] eqn:Hdel; simpl; [|done..].
    intros [= <- <-]. unfold delete_item, SQL.bind_int in Hdel.
    destruct (SQL.fits id); simpl in Hdel; [|done]. by injection Hdel as _ <-.
  - destruct (search_items st term); simpl; [|done..]. by intros [= <- <-].
  - by intros [= <- <-].
Qed.

Lemma run_seq (calls : list call) (st : Store) (vs : list value) (st' : Store) :
  counted st → run st calls = Returns (vs, st') →
  added_ids vs = seqZ (seq st + 1) (seq st' - seq st) ∧ seq st ≤ seq st'.
Proof.
  revert st vs. induction calls as [|c calls IH]; intros st vs Hst; simpl.
  - intros [= <- <-]. rewrite Z.sub_diag. done.
  - destruct (exec st c) as [[v st1]| |] eqn:Hexec; simpl; [|done..].
    destruct (run st1 calls) as [[vs1 st2]| |] eqn:Hrun; simpl; [|done..].
    intros [= <- <-].
    destruct (exec_counter _ _ _ _ Hst Hexec) as (Hst1 & _ & _).
    pose proof (exec_seq _ _ _ _ Hst Hexec) as Hv.
    destruct (IH _ _ Hst1 Hrun) as [Hids Hle].
    destruct v as [id|row|b|rows].
    + change (added_ids (VId id :: vs1)) with (id :: added_ids vs1).
      destruct Hv as [-> Hseq]. rewrite Hids, Hseq. split; [|lia].
      rewrite (seqZ_cons (seq st + 1)) by lia. f_equal. f_equal; lia.
    + change (added_ids (VRow row :: vs1)) with (added_ids vs1).
      rewrite Hids, Hv. split; [done|lia].
    + change (added_ids (VBool b :: vs1)) with (added_ids vs1).
      rewrite Hids, Hv. split; [done|lia].
    + change (added_ids (VRows rows :: vs1)) with (added_ids vs1).
      rewrite Hids, Hv. split; [done|lia].
Qed.

(** X3: over any run of calls on a store created empty, the ids that
    [add_item] returns are 1, 2, 3, ... in the order of the calls, whatever
    was deleted or updated in between, and the counter of [sqlite_sequence]
    is the number of rows added so far. *)
Theorem added_ids_count (calls : list call) (vs : list value) (st' : Store) :
  run (create_tables None) calls = Returns (vs, st') →
  added_ids vs = seqZ 1 (seq st') ∧
  seq st' = Z.of_nat (length (added_ids vs)).
Proof.
  intros Hrun. destruct (run_seq calls empty_store vs st') as [Hids Hle]; [done..|].
  simpl in *. rewrite Z.sub_0_r in Hids. split; [done|].
  rewrite Hids, length_seqZ. lia.
Qed.

Lemma added_ids_count_witness :
  let calls := [Add 100 "Hammer" (Some "Claw hammer") (Some "Shelf A") 3;
                Delete 1;
                Add 101 "Nails" None None 40;
                Update 102 2 quantity_5;
                Add 103 "Saw" None (Some "Shelf B") 1] in
  let vs := [VId 1; VBool true; VId 2; VBool true; VId 3] in
  let st' := {| items := [{| item_id := 2; name := "Nails"; description := None;
                             location := None; quantity := 5;
                             date_added := 101; last_modified := 102 |};
                          new_row 3 103 "Saw" None (Some "Shelf B") 1];
                seq := 3 |} in
  run (create_tables None) calls = Returns (vs, st') ∧
  added_ids vs = seqZ 1 (seq st') ∧
  seq st' = Z.of_nat (length (added_ids vs)).
Proof.
  intros calls vs st'. split; [reflexivity|].
  apply (added_ids_count calls vs st'). reflexivity.
Defined.

(** X4: [add_item] appends its row after the rows the table has, all of
    them under smaller ids, and leaves those rows as they were: the rows of
    the other ids are the same list and [get_item] on them answers as
    before. *)
Theorem add_item_frame (st : Store) (now : Z) (n : string) (d l : option string)
    (q id : Z) (st' : Store) :
  add_item st now n d l q = Returns (id, st') →
  list_items st' = list_items st ++ [new_row id now n d l q] ∧
  Forall (λ r, item_id r < id) (list_items st) ∧
  untouched id st st'.
Proof.
  intros (_ & _ & -> & ->)%add_item_returns. unfold list_items. simpl.
  assert (Forall (λ r, item_id r < high_water st + 1) (items st)) as Hbelow.
  { apply Forall_forall. intros r Hr%high_water_ge. lia. }
  split; [done|]. split; [done|].
  apply untouched_select. intros Q HQ Hne. simpl.
  rewrite filter_app, filter_cons_False, filter_nil, app_nil_r; [done|].
  simpl. intros HQid. by apply Hne in HQid.
Qed.

Lemma add_item_frame_witness :
  let hammer := new_row 1 100 "Hammer" (Some "Claw hammer") (Some "Shelf A") 3 in
  let st := {| items := [hammer]; seq := 4 |} in
  let st' := {| items := [hammer; new_row 5 101 "Nails" None None 40]; seq := 5 |} in
  add_item st 101 "Nails" None None 40 = Returns (5, st') ∧
  list_items st' = list_items st ++ [new_row 5 101 "Nails" None None 40] ∧
  Forall (λ r, item_id r < 5) (list_items st) ∧
  untouched 5 st st'.
Proof.
  intros hammer st st'. split; [reflexivity|].
  apply (add_item_frame st 101 "Nails" None None 40 5 st'). reflexivity.
Defined.



Lemma allowed_lookup (kwargs : gmap string pyval) (k : string) :
  k ∈ allowed_fields → allowed kwargs !! k = kwargs !! k.
Proof.
  intros Hk. unfold allowed. apply option_eq. intros v.
  rewrite map_lookup_filter_Some. simpl. tauto.
Qed.

(** X6: [update_item] that returns true sets, in the row of that id, the
    columns named in the keywords to the values given, [last_modified] to
    the clock reading, and keeps every other column: [get_item] afterwards
    returns the row so changed. *)
Theorem update_then_get (st : Store) (now id : Z) (kwargs : gmap string pyval)
    (st' : Store) (r : Item) :
  update_item st now id kwargs = Returns (true, st') →
  get_item st id = Returns (Some r) →
  get_item st' id = Returns (Some
    {| item_id := item_id r;
       name := match kwargs !! "name" with Some (PStr s) => s | _ => name r end;
       description :=
         match kwargs !! "description" with
         | Some (PStr s) => Some s
         | Some PNone => None
         | _ => description r
         end;
       location :=
         match kwargs !! "location" with
         | Some (PStr s) => Some s
         | Some PNone => None
         | _ => location r
         end;
       quantity := match kwargs !! "quantity" with Some (PInt v) => v | _ => quantity r end;
       date_added := date_added r;
       last_modified := now |}).
Proof.
  intros [(_ & [=] & _)|(_ & _ & _ & a & Ha & ->)]%update_item_returns
         [Hid Hr]%get_item_returns.
  apply get_item_returns. split; [done|]. simpl. rewrite update_rows_hit.
  destruct (filter _ (items st)) as [|r0 rows] eqn:Hsel; [done|].
  simpl in Hr. injection Hr as <-. simpl.
  destruct Ha as [Hmiss|Htyped].
  { assert (r ∈ filter (λ r, item_id r = id) (items st)) as [Heq Hin]%list_elem_of_filter
      by (rewrite Hsel; left).
    rewrite Forall_forall in Hmiss. by destruct (Hmiss r Hin). }
  do 2 f_equal. unfold typed, column in Htyped.
  rewrite !allowed_lookup in Htyped by (unfold allowed_fields; set_solver).
  unfold set_columns.
  destruct (kwargs !! "name") as [[]|]; simplify_eq/=;
  destruct (kwargs !! "description") as [[]|]; simplify_eq/=;
  destruct (kwargs !! "location") as [[]|]; simplify_eq/=;
  destruct (kwargs !! "quantity") as [[]|]; simplify_eq/=; done.
Qed.

Lemma update_then_get_witness :
  let hammer := new_row 1 100 "Hammer" (Some "Claw hammer") (Some "Shelf A") 3 in
  let st := {| items := [hammer]; seq := 1 |} in
  let kwargs : gmap string pyval :=
    {[ "name" := PStr "Mallet"; "location" := PNone; "colour" := PStr "red" ]} in
  let mallet := {| item_id := 1; name := "Mallet"; description := Some "Claw hammer";
                   location := None; quantity := 3;
                   date_added := 100; last_modified := 200 |} in
  update_item st 200 1 kwargs = Returns (true, {| items := [mallet]; seq := 1 |}) ∧
  get_item st 1 = Returns (Some hammer) ∧
  get_item {| items := [mallet]; seq := 1 |} 1 = Returns (Some mallet).
Proof.
  intros hammer st kwargs mallet. split; [reflexivity|]. split; [reflexivity|].
  apply (update_then_get st 200 1 kwargs {| items := [mallet]; seq := 1 |} hammer);
    reflexivity.
Defined.

End Storage.

(** ** More on [delete_item] and [search_items] *)

Section DeleteSearch.

(** X7: [delete_item] on an id no row has returns false and writes nothing:
    the store it leaves is the store it found. *)
Theorem delete_item_missing (st : Store) (id : Z) :
  SQL.fits id = true →
  (∀ r, r ∈ items st → item_id r ≠ id) →
  delete_item st id = Returns (false, st).
Proof.
  intros Hid Hmiss. rewrite delete_item_returns by done. f_equal. f_equal.
  - apply bool_decide_eq_false. rewrite Exists_exists.
    intros (r & Hr & Heq). by apply (Hmiss r).
  - rewrite select_all by done. by destruct st.
Qed.

Lemma delete_item_missing_witness :
  let st := {| items := [new_row 2 101 "Nails" None None 40]; seq := 2 |} in
  SQL.fits 1 = true ∧
  (∀ r, r ∈ items st → item_id r ≠ 1) ∧
  delete_item st 1 = Returns (false, st).
Proof.
  intros st.
  assert (∀ r, r ∈ items st → item_id r ≠ 1) as Hmiss.
  { intros r ->%list_elem_of_singleton. done. }
  split; [reflexivity|]. split; [done|].
  apply (delete_item_missing st 1); [reflexivity|done].
Defined.

(** X8: in a store grown from the empty one, [delete_item] on the id of a
    listed row returns true and removes that one row, keeping the rows
    before and after it in their order. *)
Theorem delete_item_one_row (calls : list call) (vs : list value) (st : Store)
    (r : Item) :
  run (create_tables None) calls = Returns (vs, st) →
  r ∈ list_items st →
  ∃ before after,
    list_items st = before ++ r :: after ∧
    delete_item st (item_id r)
    = Returns (true, {| items := before ++ after; seq := seq st |}).
Proof.
  intros Hrun Hr. unfold list_items in *.
  destruct (run_keyed calls empty_store vs st keyed_empty Hrun) as (Hsorted & Hids & Hseq).
  apply list_elem_of_split in Hr as (before & after & Hsplit).
  exists before, after. split; [done|].
  rewrite Hsplit, fmap_app, fmap_cons in Hsorted.
  apply StronglySorted_app in Hsorted as (Hbefore & _ & Hafter).
  apply StronglySorted_inv in Hafter as [_ Hafter].
  rewrite Forall_fmap, Forall_forall in Hafter.
  rewrite delete_item_returns.
  - f_equal. f_equal.
    + apply bool_decide_eq_true. rewrite Hsplit, Exists_exists.
      exists r. split; [|done]. apply elem_of_app. right. left.
    + f_equal. rewrite Hsplit, filter_app, filter_cons_False by (by intros []).
      rewrite !select_all; [done| |].
      * intros x Hx. specialize (Hafter x Hx). simpl in Hafter. lia.
      * intros x Hx.
        specialize (Hbefore (item_id x) (item_id r)).
        cut (item_id x < item_id r); [lia|].
        apply Hbefore; [by apply list_elem_of_fmap_2|left].
  - rewrite Forall_forall in Hids.
    assert (r ∈ items st) as Hr by (rewrite Hsplit; apply elem_of_app; right; left).
    specialize (Hids r Hr). apply fits_spec. unfold SQL.INT64_MIN. lia.
Qed.

Lemma delete_item_one_row_witness :
  let calls := [Add 100 "Hammer" (Some "Claw hammer") (Some "Shelf A") 3;
                Add 101 "Nails" None None 40;
                Add 102 "Saw" None (Some "Shelf B") 1] in
  let hammer := new_row 1 100 "Hammer" (Some "Claw hammer") (Some "Shelf A") 3 in
  let nails := new_row 2 101 "Nails" None None 40 in
  let saw := new_row 3 102 "Saw" None (Some "Shelf B") 1 in
  let st := {| items := [hammer; nails; saw]; seq := 3 |} in
  run (create_tables None) calls = Returns ([VId 1; VId 2; VId 3], st) ∧
  nails ∈ list_items st ∧
  ∃ before after,
    list_items st = before ++ nails :: after ∧
    delete_item st (item_id nails)
    = Returns (true, {| items := before ++ after; seq := seq st |}).
Proof.
  intros calls hammer nails saw st.
  assert (nails ∈ list_items st) as Hin by (right; left).
  split; [reflexivity|]. split; [done|].
  apply (delete_item_one_row calls [VId 1; VId 2; VId 3] st nails); [reflexivity|done].
Defined.

(** X9: deleting and searching commute: after [delete_item] returns, a
    search that returned before returns what it found before, in the same
    order, less the rows of the deleted id; a search that raised before
    raises again unless the table is left empty, and then returns
    nothing. *)
Theorem delete_then_search (st : Store) (id : Z) (b : bool) (st' : Store)
    (term : string) :
  delete_item st id = Returns (b, st') →
  (∀ rows, search_items st term = Returns rows →
           search_items st' term = Returns (filter (λ r, item_id r ≠ id) rows)) ∧
  (∀ e, search_items st term = Raises e →
        search_items st' term = if decide (items st' = []) then Returns [] else Raises e).
Proof.
  unfold delete_item, SQL.bind_int. destruct (SQL.fits id); simpl; [|done].
  intros [= _ <-]. split.
  - intros rows [Hok ->]%search_items_returns. apply search_items_returns. split.
    + destruct Hok as [Hnone|Hshort]; [left|by right]. simpl. by rewrite Hnone.
    + unfold matching. simpl.
      rewrite !list_filter_filter. apply list_filter_iff. intros r. tauto.
  - intros e. simpl. unfold search_items.
    destruct (items st) as [|r rows]; [done|].
    destruct (SQL.LIKE_PATTERN_LENGTH <? _); [|done]. intros [= <-].
    by destruct (filter _ (r :: rows)).
Qed.

Lemma delete_then_search_witness :
  let hammer := new_row 1 100 "Hammer" (Some "Claw hammer") (Some "Shelf A") 3 in
  let mallet := new_row 2 101 "Mallet" (Some "Rubber hammer") None 1 in
  let st := {| items := [hammer; mallet]; seq := 2 |} in
  let st' := {| items := [mallet]; seq := 2 |} in
  delete_item st 1 = Returns (true, st') ∧
  search_items st "hammer" = Returns [hammer; mallet] ∧
  search_items st' "hammer" = Returns [mallet].
Proof.
  intros hammer mallet st st'. split; [reflexivity|]. split; [reflexivity|].
  destruct (delete_then_search st 1 true st' "hammer") as [Hfound _]; [reflexivity|].
  apply (Hfound [hammer; mallet]). reflexivity.
Defined.

Lemma like_everything (text : string) : SQL.like "%%" text = true.
Proof.
  unfold SQL.like. change (SQL.c_str "%%") with "%%".
  by rewrite like_percent, like_any.
Qed.

(** X10: a search that returns gives rows of the list in the order of
    the list, and the empty term returns the whole list. *)
Theorem search_items_listed (st : Store) (term : string) :
  (∀ rows, search_items st term = Returns rows → rows `sublist_of` list_items st) ∧
  search_items st "" = Returns (list_items st).
Proof.
  split; [intros rows [_ ->]%search_items_returns; apply sublist_filter|].
  apply search_items_returns. split; [right; by vm_compute|].
  unfold matching, list_items. symmetry. apply select_all. intros r _.
  change ("%" +:+ "" +:+ "%") with "%%". by rewrite like_everything.
Qed.

Lemma search_items_listed_witness :
  let hammer := new_row 1 100 "Hammer" (Some "Claw hammer") (Some "Shelf A") 3 in
  let nails := new_row 2 101 "Nails" None None 40 in
  let saw := new_row 3 102 "Saw" (Some "Hand saw") None 1 in
  let st := {| items := [hammer; nails; saw]; seq := 3 |} in
  search_items st "a" = Returns [hammer; nails; saw] ∧
  search_items st "ha" = Returns [hammer; saw] ∧
  [hammer; saw] `sublist_of` list_items st.
Proof.
  intros hammer nails saw st. split; [reflexivity|]. split; [reflexivity|].
  destruct (search_items_listed st "ha") as [Hlisted _].
  apply (Hlisted [hammer; saw]). reflexivity.
Defined.

Lemma lower_fixed (c : ascii) : SQL.lower (SQL.lower c) = SQL.lower c.
Proof. by destruct c as [[] [] [] [] [] [] [] []]. Qed.

Lemma lower_wildcard (c : ascii) :
  Ascii.eqb (SQL.lower c) "%" = Ascii.eqb c "%" ∧
  Ascii.eqb (SQL.lower c) "_" = Ascii.eqb c "_" ∧
  Ascii.eqb (SQL.lower c) "000" = Ascii.eqb c "000".
Proof. by destruct c as [[] [] [] [] [] [] [] []]. Qed.

(** LIKE reads a pattern up to the case of its ASCII letters. *)
Lemma like_from_lower (p s : string) :
  SQL.like_from (SQL.lower_all p) s = SQL.like_from p s.
Proof.
  revert s. induction p as [|c p IH]; intros s; [done|].
  cbn [SQL.lower_all]. destruct (lower_wildcard c) as (Hpercent & Hunderscore & _).
  destruct (Ascii.eqb c "%") eqn:Hp.
  - apply Ascii.eqb_eq in Hp as ->. change (SQL.lower "%") with "%"%char.
    induction s as [|d s IHs].
    + by rewrite (like_percent (SQL.lower_all p)), (like_percent p), IH.
    + rewrite (like_percent (SQL.lower_all p)), (like_percent p), IH.
      cbv iota. by rewrite IHs.
  - destruct (Ascii.eqb c "_") eqn:Hu.
    + apply Ascii.eqb_eq in Hu as ->. change (SQL.lower "_") with "_"%char.
      destruct s; simpl; [done|]. apply IH.
    + rewrite !like_literal by congruence. rewrite lower_fixed.
      destruct s; [done|]. by rewrite IH.
Qed.

Lemma c_str_lower (s : string) : SQL.c_str (SQL.lower_all s) = SQL.lower_all (SQL.c_str s).
Proof.
  induction s as [|c s IH]; [done|]. cbn [SQL.lower_all SQL.c_str].
  destruct (lower_wildcard c) as (_ & _ & ->).
  destruct (Ascii.eqb c "000"); [done|]. cbn [SQL.lower_all]. by rewrite IH.
Qed.

Lemma lower_all_append (s1 s2 : string) :
  SQL.lower_all (s1 +:+ s2) = SQL.lower_all s1 +:+ SQL.lower_all s2.
Proof.
  induction s1 as [|c s1 IH]; [done|].
  change (String c s1 +:+ s2) with (String c (s1 +:+ s2)).
  cbn [SQL.lower_all]. rewrite IH. done.
Qed.

Lemma like_lower (pattern pattern' text : string) :
  SQL.lower_all pattern = SQL.lower_all pattern' →
  SQL.like pattern text = SQL.like pattern' text.
Proof.
  intros Hlower. unfold SQL.like.
  rewrite <- (like_from_lower (SQL.c_str pattern)),
          <- (like_from_lower (SQL.c_str pattern')), <- !c_str_lower.
  by rewrite Hlower.
Qed.

Lemma bytes_lower (s : string) : SQL.bytes (SQL.lower_all s) = SQL.bytes s.
Proof.
  induction s as [|c s IH]; [done|]. cbn [SQL.lower_all SQL.bytes]. rewrite IH.
  f_equal. by destruct c as [[] [] [] [] [] [] [] []].
Qed.

(** X11: a search does not see the case of the ASCII letters of its term:
    two terms that are equal once their letters A to Z are put in lower
    case return the same rows. *)
Theorem search_items_term_case (st : Store) (term term' : string) :
  SQL.lower_all term = SQL.lower_all term' →
  search_items st term = search_items st term'.
Proof.
  intros Hlower.
  assert (SQL.lower_all ("%" +:+ term +:+ "%") = SQL.lower_all ("%" +:+ term' +:+ "%"))
    as Hpattern.
  { change ("%" +:+ term +:+ "%") with (String "%" (term +:+ "%")).
    change ("%" +:+ term' +:+ "%") with (String "%" (term' +:+ "%")).
    cbn [SQL.lower_all]. by rewrite !lower_all_append, Hlower. }
  assert (matching st term = matching st term') as Hsame.
  { unfold matching. apply list_filter_iff. intros r.
    rewrite (like_lower _ _ (name r) Hpattern).
    destruct (description r) as [d|]; simpl; [|done].
    by rewrite (like_lower _ _ d Hpattern). }
  unfold search_items. fold (matching st term) (matching st term').
  rewrite !bytes_pattern, <- (bytes_lower term), <- (bytes_lower term'), Hlower, Hsame.
  done.
Qed.

Lemma search_items_term_case_witness :
  let hammer := new_row 1 100 "Hammer" (Some "Claw hammer") (Some "Shelf A") 3 in
  let st := {| items := [hammer; new_row 2 101 "Nails" None None 40]; seq := 2 |} in
  SQL.lower_all "CLAW" = SQL.lower_all "claw" ∧
  search_items st "claw" = Returns [hammer] ∧
  search_items st "CLAW" = search_items st "claw".
Proof.
  intros hammer st. split; [reflexivity|]. split; [reflexivity|].
  apply (search_items_term_case st "CLAW" "claw"). reflexivity.
Defined.

End DeleteSearch.

(** ** More on the [add] command *)

Section AddWords.

(** [split n] returns at most [n + 1] texts, none empty, the first [n] of
    them words. *)
Lemma split_words (n : nat) (s : string) :
  (length (Py.split n s) ≤ S n)%nat ∧
  Forall (λ t, t ≠ "") (Py.split n s) ∧
  Forall (λ t, word t = true) (take n (Py.split n s)).
Proof.
  revert s. induction n as [|n IH]; intros s; rewrite split_unfold.
  - destruct (Py.lstrip s); simpl; [by repeat constructor|].
    split; [lia|]. split; by repeat constructor.
  - destruct (Py.lstrip s) as [|c s1] eqn:Hs1; [simpl; split; [lia|by split]|].
    apply skip_stops in Hs1.
    destruct (token_length c s1 Hs1) as [_ Hne].
    destruct (token_split (String c s1)) as (_ & Hword & _).
    destruct (IH (Py.token (String c s1)).2) as (Hlen & Hnonempty & Hwords).
    cbv iota. split; [cbn [length]; lia|]. split; [by constructor|].
    rewrite firstn_cons. by constructor.
Qed.

(** X12: a call of [do_add] that returns either printed the error and left
    the store as it was, or appended one row to the list: its name is not
    empty and holds no white space, its description and location, when not
    [None], likewise, its quantity is a 64-bit integer, and both its time
    stamps are the clock reading of the call. *)
Theorem do_add_row (st : Store) (now : Z) (arg : string)
    (out : list string) (st' : Store) :
  do_add st now arg = Returns (out, st') →
  (out = ["Error: Item name is required"] ∧ st' = st) ∨
  ∃ row,
    out = ["Added item with ID: " +:+ pretty (item_id row)] ∧
    list_items st' = list_items st ++ [row] ∧
    name row ≠ "" ∧ word (name row) = true ∧
    from_option (λ d, d ≠ "" ∧ word d = true) True (description row) ∧
    from_option (λ l, l ≠ "" ∧ word l = true) True (location row) ∧
    SQL.fits (quantity row) = true ∧
    date_added row = now ∧ last_modified row = now.
Proof.
  unfold do_add. destruct (split_words 3 arg) as (Hlen & Hnonempty & Hwords).
  destruct (Py.split 3 arg) as [|n rest]; [intros [= <- <-]; by left|].
  simpl. set (q := quantity_of (rest !! 2%nat)).
  destruct (add_item st now n (rest !! 0%nat) (rest !! 1%nat) q)
    as [[id st1]| |] eqn:Hadd; simpl; [|done..].
  intros [= <- <-]. apply add_item_returns in Hadd as (Hq & _ & -> & ->).
  right. exists (new_row (high_water st + 1) now n (rest !! 0%nat) (rest !! 1%nat) q).
  split; [reflexivity|]. split; [reflexivity|]. simpl.
  apply Forall_cons in Hnonempty as [Hn Hrest].
  rewrite firstn_cons in Hwords. apply Forall_cons in Hwords as [Hword Hwords].
  repeat split; try done.
  - destruct rest as [|d rest]; simpl; [done|].
    apply Forall_cons in Hrest as [Hd _].
    rewrite firstn_cons in Hwords. by apply Forall_cons in Hwords as [? _].
  - destruct rest as [|d [|l rest]]; simpl; [done..|].
    apply Forall_cons in Hrest as [_ [Hl _]%Forall_cons].
    rewrite !firstn_cons in Hwords.
    by apply Forall_cons in Hwords as [_ [? _]%Forall_cons].
Qed.

Lemma do_add_row_witness :
  let row := new_row 1 100 "Hammer" (Some "Claw") None 1 in
  let st' := {| items := [row]; seq := 1 |} in
  do_add empty_store 100 "  Hammer   Claw " = Returns (["Added item with ID: 1"], st') ∧
  ((["Added item with ID: 1"] = ["Error: Item name is required"] ∧ st' = empty_store) ∨
   ∃ row,
     ["Added item with ID: 1"] = ["Added item with ID: " +:+ pretty (item_id row)] ∧
     list_items st' = list_items empty_store ++ [row] ∧
     name row ≠ "" ∧ word (name row) = true ∧
     from_option (λ d, d ≠ "" ∧ word d = true) True (description row) ∧
     from_option (λ l, l ≠ "" ∧ word l = true) True (location row) ∧
     SQL.fits (quantity row) = true ∧
     date_added row = 100 ∧ last_modified row = 100).
Proof.
  intros row st'. split; [reflexivity|].
  apply (do_add_row empty_store 100 "  Hammer   Claw "). reflexivity.
Defined.

End AddWords.

(** ** Printing an integer and reading it back *)

Section Decimal.

Lemma digit_char (m : N) : (m < 10)%N → Py.digit (pretty_N_char m) = Some (Z.of_N m).
Proof.
  intros Hm.
  assert (m = 0 ∨ m = 1 ∨ m = 2 ∨ m = 3 ∨ m = 4 ∨ m = 5 ∨ m = 6 ∨ m = 7 ∨ m = 8 ∨ m = 9)%N
    as Hcases by lia.
  repeat (destruct Hcases as [->|Hcases]; [done|]). by subst.
Qed.

(** The decimal digits [pretty_N_go] puts before a text: how many there
    are, what [scan] reads from them, and that they begin with a digit. *)
Lemma pretty_N_go_digits (x : N) :
  ∃ n : nat,
    (x = 0%N → n = 0%nat) ∧
    ((0 < x)%N → (1 ≤ n)%nat ∧ 10 ^ (Z.of_nat n - 1) ≤ Z.of_N x) ∧
    Z.of_N x < 10 ^ Z.of_nat n ∧
    ∀ s,
      String.length (pretty_N_go x s) = (n + String.length s)%nat ∧
      ((0 < x)%N → ∃ c r d, pretty_N_go x s = String c r ∧ Py.digit c = Some d) ∧
      ∀ k acc, Py.scan false k acc (pretty_N_go x s)
               = Py.scan false (k + n) (acc * 10 ^ Z.of_nat n + Z.of_N x) s.
Proof.
  induction (N.lt_wf_0 x) as [x _ IH].
  assert (x = 0 ∨ 0 < x)%N as [->|Hpos] by lia.
  - exists 0%nat. split; [done|]. split; [lia|]. split; [done|].
    intros s. rewrite pretty_N_go_0. split; [done|]. split; [lia|].
    intros k acc. f_equal; [lia|]. simpl. lia.
  - destruct (IH (x `div` 10)%N) as (n & Hzero & Hsome & Hupper & Hgo).
    { by apply N.div_lt. }
    assert (Z.of_N x = 10 * Z.of_N (x `div` 10) + Z.of_N (x `mod` 10)) as Hx.
    { pose proof (N.div_mod x 10). lia. }
    assert (x `mod` 10 < 10)%N as Hmod by (by apply N.mod_lt).
    assert (10 ^ Z.of_nat (S n) = 10 * 10 ^ Z.of_nat n) as Hpow.
    { rewrite Nat2Z.inj_succ, Z.pow_succ_r; lia. }
    exists (S n). split; [lia|]. split; [|split].
    + intros _. split; [lia|].
      replace (Z.of_nat (S n) - 1) with (Z.of_nat n) by lia.
      assert (x `div` 10 = 0 ∨ 0 < x `div` 10)%N as [Hdiv|Hdiv] by lia.
      * rewrite (Hzero Hdiv). simpl. lia.
      * destruct (Hsome Hdiv) as [Hn Hlower].
        replace (Z.of_nat n) with (Z.succ (Z.of_nat n - 1)) by lia.
        rewrite Z.pow_succ_r by lia.
        pose proof (N2Z.is_nonneg (x `mod` 10)).
        generalize dependent (10 ^ (Z.of_nat n - 1)).
        generalize dependent (Z.of_N (x `div` 10)).
        generalize dependent (Z.of_N (x `mod` 10)). intros. lia.
    + rewrite Hpow. pose proof (N2Z.is_nonneg (x `mod` 10)).
      assert (Z.of_N (x `mod` 10) < 10) by lia.
      generalize dependent (10 ^ Z.of_nat n).
      generalize dependent (Z.of_N (x `div` 10)).
      generalize dependent (Z.of_N (x `mod` 10)). intros. lia.
    + intros s. rewrite pretty_N_go_step by done.
      destruct (Hgo (String (pretty_N_char (x `mod` 10)) s)) as (Hlen & Hfirst & Hscan).
      split; [rewrite Hlen; simpl; lia|]. split.
      * intros _.
        assert (x `div` 10 = 0 ∨ 0 < x `div` 10)%N as [Hdiv|Hdiv] by lia.
        -- rewrite Hdiv, pretty_N_go_0. eexists _, _, _.
           split; [done|]. by apply digit_char.
        -- by apply Hfirst.
      * intros k acc. rewrite Hscan. cbn [Py.scan].
        rewrite digit_char by done. f_equal; [lia|]. rewrite Hpow. lia.
Qed.

Lemma digit_plain (c : ascii) (d : Z) :
  Py.digit c = Some d →
  Py.int_space c = false ∧ Ascii.eqb c "+" = false ∧
  Ascii.eqb c "-" = false ∧ Ascii.eqb c "_" = false.
Proof.
  intros Hd. split.
  - apply not_true_is_false. intros Hspace%int_space_isspace.
    by rewrite (digit_not_space c d) in Hspace.
  - repeat split; apply Ascii.eqb_neq; by intros ->.
Qed.

Lemma few_digits (n : nat) (x : Z) :
  10 ^ (Z.of_nat n - 1) ≤ x → x ≤ - SQL.INT64_MIN → (n ≤ 19)%nat.
Proof.
  intros Hlower Hupper. destruct (decide (n ≤ 19)%nat) as [|Hmany]; [done|].
  assert (10 ^ 19 ≤ 10 ^ (Z.of_nat n - 1)) by (apply Z.pow_le_mono_r; lia).
  unfold SQL.INT64_MIN in *. lia.
Qed.

(** The digits of a 64-bit integer are read back as that integer. *)
Lemma digits_pretty (negative : bool) (p : positive) :
  Z.pos p ≤ - SQL.INT64_MIN →
  Py.digits negative (pretty_N_go (N.pos p) "")
  = Some (if negative then Z.neg p else Z.pos p).
Proof.
  intros Hupper.
  destruct (pretty_N_go_digits (N.pos p)) as (n & _ & Hsome & _ & Hgo).
  destruct Hsome as [Hn Hlower]; [done|].
  destruct (Hgo "") as (_ & Hfirst & Hscan).
  destruct Hfirst as (c & r & d & Hcr & Hd); [done|].
  destruct (digit_plain c d Hd) as (_ & _ & _ & Hunderscore).
  unfold Py.digits. rewrite Hcr, Hunderscore, <- Hcr, Hscan. simpl.
  pose proof (few_digits n (Z.pos p) Hlower Hupper) as Hfew.
  destruct n as [|n]; [lia|]. cbn [Nat.eqb].
  assert ((Py.max_str_digits <? S n)%nat = false) as ->.
  { apply Nat.ltb_ge. unfold Py.max_str_digits. lia. }
  by destruct negative.
Qed.

(** What is printed for a 64-bit integer, [int] reads back. *)
Lemma int_pretty (z : Z) : SQL.fits z = true → Py.int (pretty z) = Some z.
Proof.
  intros [Hlower Hupper]%fits_spec. destruct z as [|p|p]; [done|..].
  - change (pretty (Z.pos p)) with (pretty_N_go (N.pos p) "").
    destruct (pretty_N_go_digits (N.pos p)) as (n & _ & _ & _ & Hgo).
    destruct (Hgo "") as (_ & Hfirst & _).
    destruct Hfirst as (c & r & d & Hcr & Hd); [done|].
    destruct (digit_plain c d Hd) as (Hspace & Hplus & Hminus & _).
    unfold Py.int. rewrite Hcr. cbn [Py.skip]. rewrite Hspace, Hplus, Hminus, <- Hcr.
    apply (digits_pretty false p). unfold SQL.INT64_MIN, SQL.INT64_MAX in *. lia.
  - change (pretty (Z.neg p)) with (String "-" (pretty_N_go (N.pos p) "")).
    change (Py.int (String "-" (pretty_N_go (N.pos p) "")))
      with (Py.digits true (pretty_N_go (N.pos p) "")).
    apply (digits_pretty true p).
    unfold SQL.INT64_MIN, SQL.INT64_MAX in *. lia.
Qed.

(** The width of what is printed for an integer of at most [w] digits. *)
Lemma pretty_width (w : nat) (z : Z) :
  (1 ≤ w)%nat → - 10 ^ (Z.of_nat w - 1) < z < 10 ^ Z.of_nat w →
  (String.length (pretty z) ≤ w)%nat.
Proof.
  intros Hw [Hlower Hupper]. destruct z as [|p|p]; [simpl; lia|..].
  - change (pretty (Z.pos p)) with (pretty_N_go (N.pos p) "").
    destruct (pretty_N_go_digits (N.pos p)) as (n & _ & Hsome & _ & Hgo).
    destruct Hsome as [Hn Hn10]; [done|]. destruct (Hgo "") as (-> & _).
    simpl. rewrite Nat.add_0_r.
    destruct (decide (n ≤ w)%nat) as [|Hwide]; [done|].
    assert (10 ^ Z.of_nat w ≤ 10 ^ (Z.of_nat n - 1)) by (apply Z.pow_le_mono_r; lia).
    change (Z.of_N (N.pos p)) with (Z.pos p) in *. lia.
  - change (pretty (Z.neg p)) with (String "-" (pretty_N_go (N.pos p) "")).
    destruct (pretty_N_go_digits (N.pos p)) as (n & _ & Hsome & _ & Hgo).
    destruct Hsome as [Hn Hn10]; [done|]. destruct (Hgo "") as (Hlen & _).
    simpl. rewrite Hlen. simpl. rewrite Nat.add_0_r.
    destruct (decide (S n ≤ w)%nat) as [|Hwide]; [done|].
    assert (10 ^ (Z.of_nat w - 1) ≤ 10 ^ (Z.of_nat n - 1))
      by (apply Z.pow_le_mono_r; lia).
    change (Z.of_N (N.pos p)) with (Z.pos p) in *. lia.
Qed.

End Decimal.

(** ** The [delete] command *)

Section DoDelete.

(** X13: a call of [do_delete] that returns did one of three things: the
    argument is no integer, the error is printed and the store is as it
    was; or the argument reads as a 64-bit id that a row has, the deletion
    is reported under that id, the rows of that id are gone from the list
    and [get_item] finds nothing; or no row has the id, that is reported,
    and the store is as it was. *)
Theorem do_delete_reports (st : Store) (arg : string) (out : list string) (st' : Store) :
  do_delete st arg = Returns (out, st') →
  (Py.int arg = None ∧ out = ["Error: Please provide a valid item ID"] ∧ st' = st) ∨
  ∃ id, Py.int arg = Some id ∧ SQL.fits id = true ∧
    ((Exists (λ r, item_id r = id) (list_items st) ∧
      out = ["Deleted item " +:+ pretty id] ∧
      list_items st' = filter (λ r, item_id r ≠ id) (list_items st) ∧
      get_item st' id = Returns None) ∨
     (Forall (λ r, item_id r ≠ id) (list_items st) ∧
      out = ["No item found with ID " +:+ pretty id] ∧ st' = st)).
Proof.
  unfold do_delete, list_items. destruct (Py.int arg) as [id|]; [|intros [= <- <-]; by left].
  destruct (SQL.fits id) eqn:Hid; [|by rewrite delete_item_raises].
  rewrite delete_item_returns by done. simpl. intros [= <- <-].
  right. exists id. split; [done|]. split; [done|].
  destruct (decide (Exists (λ r, item_id r = id) (items st))) as [Hsome|Hnone].
  - left. split; [done|]. rewrite bool_decide_eq_true_2 by done.
    split; [done|]. split; [done|].
    apply get_item_returns. split; [done|]. simpl.
    rewrite select_none; [done|]. by intros r [Hne _]%list_elem_of_filter.
  - right. apply not_Exists_Forall in Hnone; [|intros r; apply _].
    split; [done|]. rewrite bool_decide_eq_false_2 by (by apply Forall_not_Exists).
    split; [done|]. rewrite select_all; [by destruct st|].
    by apply Forall_forall.
Qed.

Lemma do_delete_reports_witness :
  let hammer := new_row 7 100 "Hammer" None None 3 in
  let st := {| items := [hammer]; seq := 7 |} in
  let st' := {| items := []; seq := 7 |} in
  do_delete st " 007 " = Returns (["Deleted item 7"], st') ∧
  ((Py.int " 007 " = None ∧
    ["Deleted item 7"] = ["Error: Please provide a valid item ID"] ∧ st' = st) ∨
   ∃ id, Py.int " 007 " = Some id ∧ SQL.fits id = true ∧
     ((Exists (λ r, item_id r = id) (list_items st) ∧
       ["Deleted item 7"] = ["Deleted item " +:+ pretty id] ∧
       list_items st' = filter (λ r, item_id r ≠ id) (list_items st) ∧
       get_item st' id = Returns None) ∨
      (Forall (λ r, item_id r ≠ id) (list_items st) ∧
       ["Deleted item 7"] = ["No item found with ID " +:+ pretty id] ∧ st' = st))).
Proof.
  intros hammer st st'. split; [reflexivity|].
  apply (do_delete_reports st " 007 " ["Deleted item 7"] st'). reflexivity.
Defined.

(** X14: [do_delete] catches [ValueError] only: it raises exactly when the
    argument reads as an integer that is no 64-bit integer, and what it
    raises is the [OverflowError] of [sqlite3]. *)
Theorem do_delete_raises (st : Store) (arg : string) (e : exn) :
  do_delete st arg = Raises e ↔
  e = OverflowError ∧ ∃ id, Py.int arg = Some id ∧ SQL.fits id = false.
Proof.
  unfold do_delete. destruct (Py.int arg) as [id|].
  - destruct (SQL.fits id) eqn:Hid.
    + rewrite delete_item_returns by done. simpl.
      split; [done|]. intros (_ & id' & [= <-] & Hid'). congruence.
    + rewrite delete_item_raises by done. simpl. split.
      * intros [= <-]. eauto.
      * by intros [-> _].
  - split; [done|]. by intros (_ & id & [=] & _).
Qed.

(** X15: the id [do_add] prints is one [do_delete] takes: deleting by the
    printed text reports the deletion under the same text and leaves the
    list as it was before the item was added. *)
Theorem add_then_delete (st : Store) (now : Z) (arg text : string) (st' : Store) :
  do_add st now arg = Returns (["Added item with ID: " +:+ text], st') →
  do_delete st' text
  = Returns (["Deleted item " +:+ text], {| items := items st; seq := seq st' |}).
Proof.
  unfold do_add. destruct (Py.split 3 arg) as [|n rest]; [done|]. simpl.
  destruct (add_item _ _ _ _ _ _) as [[id st1]| |] eqn:Hadd; simpl; [|done..].
  intros [= Htext <-]. apply (inj (String.append _)) in Htext as <-.
  apply add_item_returns in Hadd as (_ & Hroom & -> & ->).
  pose proof (high_water_nonneg st) as Hhw.
  assert (SQL.fits (high_water st + 1) = true) as Hid.
  { apply fits_spec. unfold SQL.INT64_MIN, SQL.INT64_MAX in *. lia. }
  unfold do_delete. rewrite int_pretty, delete_item_returns by done. simpl.
  rewrite bool_decide_eq_true_2.
  - rewrite filter_app, filter_cons_False, filter_nil, app_nil_r by (by intros []).
    rewrite select_all; [done|]. intros r Hr%high_water_ge. lia.
  - apply Exists_app. right. by left.
Qed.

Lemma add_then_delete_witness :
  let hammer := new_row 1 100 "Hammer" None None 3 in
  let st := {| items := [hammer]; seq := 41 |} in
  let st' := {| items := [hammer; new_row 42 101 "Nails" (Some "Steel") None 1];
                seq := 42 |} in
  do_add st 101 "Nails Steel" = Returns (["Added item with ID: " +:+ "42"], st') ∧
  do_delete st' "42"
  = Returns (["Deleted item " +:+ "42"], {| items := items st; seq := seq st' |}).
Proof.
  intros hammer st st'. split; [vm_compute; reflexivity|].
  apply (add_then_delete st 101 "Nails Steel" "42" st'). vm_compute. reflexivity.
Defined.

End DoDelete.

(** ** The tables of [list] and [search] *)

Section Tables.

#[local] Arguments String.append !_ _ / : simpl nomatch.

Lemma length_times (n : nat) (c : ascii) : String.length (Py.times n c) = n.
Proof. induction n as [|n IH]; simpl; by f_equal. Qed.

Lemma length_slice (n : nat) (s : string) :
  String.length (Py.slice n s) = (n `min` String.length s)%nat.
Proof. revert s. induction n as [|n IH]; intros [|c s]; simpl; by f_equal. Qed.

Lemma length_ljust (w : nat) (s : string) :
  String.length (Py.ljust w s) = (w `max` String.length s)%nat.
Proof. unfold Py.ljust. rewrite length_append, length_times. lia. Qed.

Lemma row_line_aligned (r : Item) : narrow r → aligned (row_line r).
Proof.
  intros [Hid Hq]. unfold row_line. eexists _, _, _, _, _. split; [reflexivity|].
  rewrite !length_ljust, !length_slice.
  pose proof (pretty_width 4 (item_id r)) as Hw4.
  pose proof (pretty_width 8 (quantity r)) as Hw8.
  change (Z.of_nat 4 - 1) with 3 in Hw4. change (Z.of_nat 8 - 1) with 7 in Hw8.
  change (10 ^ 3) with 1000 in Hw4. change (10 ^ Z.of_nat 4) with 10000 in Hw4.
  change (10 ^ 7) with 10000000 in Hw8. change (10 ^ Z.of_nat 8) with 100000000 in Hw8.
  repeat split; lia.
Qed.

Lemma header_aligned :
  aligned (Py.ljust 4 "ID" +:+ " | " +:+ Py.ljust 20 "Name" +:+ " | " +:+
           Py.ljust 15 "Location" +:+ " | " +:+ Py.ljust 8 "Quantity" +:+ " | " +:+
           "Description").
Proof.
  eexists _, _, _, _, _. split; [reflexivity|]. repeat split; simpl; lia.
Qed.

Lemma every_times (n : nat) (c : ascii) (p : ascii → bool) :
  p c = true → every p (Py.times n c) = true.
Proof. intros Hc. induction n as [|n IH]; simpl; [done|]. by rewrite Hc. Qed.

Lemma ljust_padded (w : nat) (s : string) : padded w s (Py.ljust w s).
Proof.
  exists (Py.times (w - String.length s) " "). split; [done|].
  split; [by apply every_times|apply length_ljust].
Qed.

Lemma slice_clipped (n : nat) (s : string) : clipped n s (Py.slice n s).
Proof.
  unfold clipped. revert s. induction n as [|n IH]; intros [|c s]; simpl.
  - by exists "".
  - by exists (String c s).
  - by exists "".
  - destruct (IH s) as (rest & Hs & Hlen). exists rest.
    split; [by rewrite <- Hs|by rewrite Hlen].
Qed.

Lemma row_line_printed (r : Item) : printed r (row_line r).
Proof.
  unfold row_line, printed. eexists _, _, _, _, _, _, _. split; [reflexivity|].
  repeat split; (apply ljust_padded || apply slice_clipped).
Qed.

(** X16: [do_list] prints one line for an empty list; otherwise the
    title, a rule of 80 dashes, the header, the rule again, and for each
    row in the order of the list its line: id, name, location, quantity
    and description with [" | "] between them, id and quantity in
    decimal and padded with spaces to 4 and 8 characters (never cut, so a
    longer number widens its column), name and location clipped and
    padded to 20 and 15, the description clipped to 30.  When ids and
    quantities fit their columns, the header and every row have their
    columns at the same places. *)
Theorem do_list_table (st : Store) :
  (list_items st = [] → do_list st = ["No items in inventory"]) ∧
  (list_items st ≠ [] →
   ∃ lines,
     do_list st = title_line :: rule_line :: header_line :: rule_line :: lines ∧
     String.length rule_line = 80%nat ∧
     length lines = length (list_items st) ∧
     Forall2 printed (list_items st) lines ∧
     (Forall narrow (list_items st) → Forall aligned (header_line :: lines))).
Proof.
  unfold do_list. split; [by intros ->|]. intros Hsome.
  destruct (list_items st) as [|r rows] eqn:Hrows; [done|].
  exists (row_line <$> r :: rows). split; [reflexivity|].
  split; [reflexivity|]. split; [by rewrite length_fmap|]. split.
  - apply Forall2_fmap_r, Forall_Forall2_diag, Forall_forall.
    intros r' _. apply row_line_printed.
  - intros Hnarrow. constructor; [apply header_aligned|].
    apply Forall_fmap. eapply Forall_impl; [done|]. apply row_line_aligned.
Qed.

Lemma do_list_table_witness :
  let hammer := {| item_id := 1; name := "Hammer"; description := Some "Claw hammer";
                   location := Some "Shelf A"; quantity := 3;
                   date_added := 100; last_modified := 100 |} in
  let nail := {| item_id := 123456; name := "A nail of uncommon length and girth";
                 description := None; location := None; quantity := -40;
                 date_added := 101; last_modified := 101 |} in
  let st := {| items := [hammer; nail]; seq := 123456 |} in
  let lines :=
    ["1    | Hammer               | Shelf A         | 3        | Claw hammer";
     "123456 | A nail of uncommon l |                 | -40      | "] in
  list_items st ≠ [] ∧
  do_list st = title_line :: rule_line :: header_line :: rule_line :: lines ∧
  Forall2 printed (list_items st) lines ∧
  (Forall narrow [hammer] → Forall aligned [header_line; row_line hammer]).
Proof.
  intros hammer nail st lines.
  assert (list_items st ≠ []) as Hsome by done.
  split; [done|].
  destruct (do_list_table st) as (_ & Htable).
  destruct (Htable Hsome) as (lines' & Hlines & _ & _ & Hprinted & _).
  assert (lines' = lines) as ->
    by (apply (f_equal (drop 4)) in Hlines; symmetry; exact Hlines).
  split; [done|]. split; [done|].
  destruct (do_list_table {| items := [hammer]; seq := 1 |}) as (_ & Htable').
  destruct Htable' as (lines' & Hlines' & _ & _ & _ & Haligned); [done|].
  assert (lines' = [row_line hammer]) as ->
    by (apply (f_equal (drop 4)) in Hlines'; symmetry; exact Hlines').
  exact Haligned.
Defined.

(** X17: [do_search] prints the error for an empty term, and for any
    other term raises what [search_items] raises; it prints one line when
    nothing matches; otherwise its table has its own title and the head
    of the table of [do_list], and its rows are rows of that table, in
    their order there. *)
Theorem do_search_table (st : Store) (arg : string) :
  do_search st "" = Returns ["Error: Search term is required"] ∧
  (arg ≠ "" → ∀ e, search_items st arg = Raises e → do_search st arg = Raises e) ∧
  (arg ≠ "" → search_items st arg = Returns [] →
   do_search st arg = Returns ["No items found matching '" +:+ arg +:+ "'"]) ∧
  (arg ≠ "" → ∀ rows, search_items st arg = Returns rows → rows ≠ [] →
   ∃ lines,
     do_search st arg =
       Returns (String "010" ("Search results for '" +:+ arg +:+ "':") ::
                table_head ++ lines) ∧
     do_list st = title_line :: table_head ++ (row_line <$> list_items st) ∧
     table_head = [rule_line; header_line; rule_line] ∧
     lines = row_line <$> rows ∧
     lines `sublist_of` (row_line <$> list_items st)).
Proof.
  split; [done|]. unfold do_search, do_list. split; [|split].
  - intros Harg e Hraises. destruct arg; [done|]. by rewrite Hraises.
  - intros Harg Hnone. destruct arg; [done|]. by rewrite Hnone.
  - intros Harg rows Hsearch Hfound. destruct arg as [|c arg]; [done|].
    rewrite Hsearch. simpl mbind.
    apply search_items_returns in Hsearch as [_ ->].
    assert (list_items st ≠ []) as Hrows.
    { intros Hnil. apply Hfound. unfold matching.
      unfold list_items in Hnil. by rewrite Hnil. }
    destruct (matching st (String c arg)) as [|r rows] eqn:Hsearch; [done|].
    destruct (list_items st) as [|r' rows'] eqn:Hlist; [done|].
    eexists. split; [reflexivity|]. split; [reflexivity|].
    split; [reflexivity|]. split; [reflexivity|].
    apply fmap_sublist. rewrite <- Hsearch, <- Hlist. apply sublist_filter.
Qed.

Lemma do_search_table_witness :
  let hammer := new_row 1 100 "Hammer" (Some "Claw hammer") (Some "Shelf A") 3 in
  let st := {| items := [hammer; new_row 2 101 "Nails" None None 40]; seq := 2 |} in
  "claw" ≠ "" ∧ search_items st "claw" = Returns [hammer] ∧
  do_search st "claw" =
    Returns [String "010" "Search results for 'claw':"; rule_line; header_line; rule_line;
             "1    | Hammer               | Shelf A         | 3        | Claw hammer"] ∧
  ∃ lines,
    do_search st "claw" =
      Returns (String "010" ("Search results for '" +:+ "claw" +:+ "':") ::
               table_head ++ lines) ∧
    do_list st = title_line :: table_head ++ (row_line <$> list_items st) ∧
    table_head = [rule_line; header_line; rule_line] ∧
    lines = row_line <$> [hammer] ∧
    lines `sublist_of` (row_line <$> list_items st).
Proof.
  intros hammer st.
  assert ("claw" ≠ "") as Hterm by done.
  split; [done|]. split; [reflexivity|]. split; [vm_compute; reflexivity|].
  destruct (do_search_table st "claw") as (_ & _ & _ & Htable).
  by apply (Htable Hterm [hammer]).
Defined.

End Tables.

(** ** Opening the store again *)

Section Sessions.

(** X18: [create_tables] on a file that has the table keeps rows and
    counter, so the ids go on growing over sessions: the ids [add_item]
    returns in a second run, on the store the first run left, are above
    every id the first run returned. *)
Theorem added_ids_over_sessions (calls1 calls2 : list call)
    (vs1 vs2 : list value) (st st' : Store) :
  run (create_tables None) calls1 = Returns (vs1, st) →
  run (create_tables (Some st)) calls2 = Returns (vs2, st') →
  create_tables (Some st) = st ∧
  StronglySorted Z.lt (added_ids vs1 ++ added_ids vs2).
Proof.
  intros Hrun1 Hrun2. split; [done|]. simpl in *.
  destruct (run_counter calls1 empty_store vs1 st) as (Hst & _ & _ & Hsorted1); [done..|].
  destruct (run_seq calls1 empty_store vs1 st) as [Hids1 _]; [done..|].
  destruct (run_counter calls2 st vs2 st') as (_ & _ & Hafter & Hsorted2); [done..|].
  apply StronglySorted_app_2; [|done..].
  intros i j Hi Hj. rewrite Hids1 in Hi. apply elem_of_seqZ in Hi.
  rewrite Forall_forall in Hafter. specialize (Hafter j Hj). simpl in Hi. lia.
Qed.

Lemma added_ids_over_sessions_witness :
  let calls1 := [Add 100 "Hammer" None None 3; Add 101 "Nails" None None 40; Delete 2] in
  let calls2 := [Add 200 "Saw" None None 1] in
  let hammer := new_row 1 100 "Hammer" None None 3 in
  let st := {| items := [hammer]; seq := 2 |} in
  let st' := {| items := [hammer; new_row 3 200 "Saw" None None 1]; seq := 3 |} in
  run (create_tables None) calls1 = Returns ([VId 1; VId 2; VBool true], st) ∧
  run (create_tables (Some st)) calls2 = Returns ([VId 3], st') ∧
  create_tables (Some st) = st ∧
  StronglySorted Z.lt (added_ids [VId 1; VId 2; VBool true] ++ added_ids [VId 3]).
Proof.
  intros calls1 calls2 hammer st st'. split; [reflexivity|]. split; [reflexivity|].
  apply (added_ids_over_sessions calls1 calls2 [VId 1; VId 2; VBool true] [VId 3] st st');
    reflexivity.
Defined.

End Sessions.
